(** * ISAM store of [prueba.py]: a shallow embedding at the byte level.

    The data file and the index file are byte strings ([list Z], every
    element a byte in [0, 255]).  [Record.pack]/[Record.unpack] and
    [Page.pack]/[Page.unpack] follow the native [struct] formats
    ['i40sif15s'] and ['ii'] of a little-endian machine; Python [str] values
    are lists of code points, [bytes.decode(errors="ignore")] and
    [str.encode()] are UTF-8 as CPython implements them, and a Python
    [float] is a binary64 [spec_float]. *)

From Stdlib Require Import ZArith List Lia Bool.
From Stdlib Require Import Floats.SpecFloat.
From Stdlib Require Import Sorting.Sorted Sorting.Permutation.
Import ListNotations.
Open Scope Z_scope.

(** ** Exceptions and results *)

(** The Python exceptions the modelled code can raise. *)
Inductive exn :=
| StructError         (** [struct.error]: value out of range, short buffer *)
| UnicodeEncodeError  (** [str.encode()] on a lone surrogate *)
| SeekError           (** [f.seek] with a negative position *)
| TypeError.          (** [Page.unpack] given an [int] instead of [bytes] *)

Inductive result (A : Type) : Type :=
| Ret (a : A)
| Exc (e : exn).
Arguments Ret {A} a.
Arguments Exc {A} e.

Definition rbind {A B} (m : result A) (k : A -> result B) : result B :=
  match m with Ret a => k a | Exc e => Exc e end.

Notation "x <-? m ;; k" := (rbind m (fun x => k))
  (at level 61, m at next level, right associativity).

(** ** [struct] primitives (native, little-endian) *)

(** The [n] low bytes of [v], least significant first (two's complement). *)
Fixpoint le_bytes (n : nat) (v : Z) : list Z :=
  match n with
  | O => []
  | S n' => Z.land v 255 :: le_bytes n' (Z.shiftr v 8)
  end.

Definition le_value (bs : list Z) : Z :=
  fold_right (fun b acc => b + 256 * acc) 0 bs.

(** Format ['i']: [struct.error] outside the signed 32-bit range. *)
Definition pack_i (v : Z) : result (list Z) :=
  if (- 2 ^ 31 <=? v) && (v <? 2 ^ 31) then Ret (le_bytes 4 v)
  else Exc StructError.

Definition unpack_i (bs : list Z) : Z :=
  let u := le_value bs in if u <? 2 ^ 31 then u else u - 2 ^ 32.

(** Format ['ii'] ([Page.FORMAT_HEADER] and [IndexFile.FORMAT]). *)
Definition pack_ii (a b : Z) : result (list Z) :=
  ba <-? pack_i a ;; bb <-? pack_i b ;; Ret (ba ++ bb).

(** Format ['Ns']: truncate to, or pad with zero bytes up to, [n] bytes. *)
Definition pack_s (n : nat) (bs : list Z) : list Z :=
  firstn n bs ++ repeat 0 (n - length bs).

(** [bytes.ljust(n, b'\x00')]. *)
Definition ljust (n : nat) (bs : list Z) : list Z :=
  bs ++ repeat 0 (n - length bs).

(** [data[off:off+len]] for non-negative bounds. *)
Definition slice (off len : nat) (l : list Z) : list Z :=
  firstn len (skipn off l).

(** ** Text: UTF-8 as [str.encode()] and [bytes.decode(errors="ignore")] *)

(** One code point; lone surrogates raise [UnicodeEncodeError]. *)
Definition utf8_char (c : Z) : result (list Z) :=
  if c <? 128 then Ret [c]
  else if c <? 2048 then Ret [192 + c / 64; 128 + c mod 64]
  else if (55296 <=? c) && (c <? 57344) then Exc UnicodeEncodeError
  else if c <? 65536 then
    Ret [224 + c / 4096; 128 + (c / 64) mod 64; 128 + c mod 64]
  else
    Ret [240 + c / 262144; 128 + (c / 4096) mod 64;
         128 + (c / 64) mod 64; 128 + c mod 64].

Fixpoint utf8_encode (s : list Z) : result (list Z) :=
  match s with
  | [] => Ret []
  | c :: s' => b <-? utf8_char c ;; bs <-? utf8_encode s' ;; Ret (b ++ bs)
  end.

Definition in_range (lo hi b : Z) : bool := (lo <=? b) && (b <=? hi).

(** CPython's UTF-8 decoder with [errors="ignore"]: each maximal invalid
    subpart is dropped, a truncated sequence at the end is dropped. *)
Fixpoint utf8_decode (bs : list Z) : list Z :=
  match bs with
  | [] => []
  | b :: rest =>
    if b <? 128 then b :: utf8_decode rest
    else if in_range 194 223 b then
      match rest with
      | [] => []
      | b2 :: rest2 =>
        if in_range 128 191 b2
        then (b - 192) * 64 + (b2 - 128) :: utf8_decode rest2
        else utf8_decode rest
      end
    else if in_range 224 239 b then
      let lo := if b =? 224 then 160 else 128 in
      let hi := if b =? 237 then 159 else 191 in
      match rest with
      | [] => []
      | b2 :: rest2 =>
        if in_range lo hi b2 then
          match rest2 with
          | [] => []
          | b3 :: rest3 =>
            if in_range 128 191 b3
            then (b - 224) * 4096 + (b2 - 128) * 64 + (b3 - 128)
                 :: utf8_decode rest3
            else utf8_decode rest2
          end
        else utf8_decode rest
      end
    else if in_range 240 244 b then
      let lo := if b =? 240 then 144 else 128 in
      let hi := if b =? 244 then 143 else 191 in
      match rest with
      | [] => []
      | b2 :: rest2 =>
        if in_range lo hi b2 then
          match rest2 with
          | [] => []
          | b3 :: rest3 =>
            if in_range 128 191 b3 then
              match rest3 with
              | [] => []
              | b4 :: rest4 =>
                if in_range 128 191 b4
                then (b - 240) * 262144 + (b2 - 128) * 4096
                     + (b3 - 128) * 64 + (b4 - 128) :: utf8_decode rest4
                else utf8_decode rest3
              end
            else utf8_decode rest2
          end
        else utf8_decode rest
      end
    else utf8_decode rest
  end.

(** [str.isspace] on one code point (the set [str.strip()] removes). *)
Definition is_space (c : Z) : bool :=
  in_range 9 13 c || in_range 28 32 c || (c =? 133) || (c =? 160)
  || (c =? 5760) || in_range 8192 8202 c || (c =? 8232) || (c =? 8233)
  || (c =? 8239) || (c =? 8287) || (c =? 12288).

Fixpoint lstrip_by (p : Z -> bool) (s : list Z) : list Z :=
  match s with
  | c :: s' => if p c then lstrip_by p s' else s
  | [] => []
  end.

Definition rstrip_by (p : Z -> bool) (s : list Z) : list Z :=
  rev (lstrip_by p (rev s)).

(** [s.rstrip('\x00')] and [s.strip()]. *)
Definition rstrip_nul (s : list Z) : list Z := rstrip_by (Z.eqb 0) s.
Definition strip (s : list Z) : list Z := rstrip_by is_space (lstrip_by is_space s).

(** ** Floats: format ['f'] stores the binary32 rounding of a binary64 *)

(** The C cast [(float)x] (round to nearest even, overflow to infinity). *)
Definition f32_of_f64 (x : spec_float) : spec_float :=
  match x with
  | S754_finite s m e => binary_round 24 128 s m e
  | _ => x
  end.

Definition sign_bit (s : bool) : Z := if s then 2 ^ 31 else 0.

(** The IEEE-754 binary32 encoding of a binary32 value. *)
Definition f32_bits (x : spec_float) : Z :=
  match x with
  | S754_zero s => sign_bit s
  | S754_infinity s => sign_bit s + 2139095040
  | S754_nan => 2143289344
  | S754_finite s m e =>
    sign_bit s + (if Z.pos m <? 2 ^ 23 then Z.pos m
                  else (e + 150) * 2 ^ 23 + (Z.pos m - 2 ^ 23))
  end.

Definition f32_of_bits (b : Z) : spec_float :=
  let s := Z.testbit b 31 in
  let ex := Z.land (Z.shiftr b 23) 255 in
  let fr := Z.land b (2 ^ 23 - 1) in
  if ex =? 0 then
    match fr with Z.pos m => S754_finite s m (-149) | _ => S754_zero s end
  else if ex =? 255 then
    (if fr =? 0 then S754_infinity s else S754_nan)
  else
    match fr + 2 ^ 23 with
    | Z.pos m => S754_finite s m (ex - 150)
    | _ => S754_nan
    end.

(** Widening to a Python float (exact; [binary_round] only renormalises). *)
Definition f64_of_f32 (x : spec_float) : spec_float :=
  match x with
  | S754_finite s m e => binary_round 53 1024 s m e
  | _ => x
  end.

Definition pack_f (x : spec_float) : list Z :=
  le_bytes 4 (f32_bits (f32_of_f64 x)).

Definition unpack_f (bs : list Z) : spec_float :=
  f64_of_f32 (f32_of_bits (le_value bs)).

(** A Python float with an integral value, [float(n)]. *)
Definition py_float (n : Z) : spec_float := binary_normalize 53 1024 n 0 false.

(** ** Record (format ['i40sif15s'], 67 bytes) *)

Record record := mkRecord {
  id : Z;
  nombre : list Z;
  cantidad : Z;
  precio : spec_float;
  fecha : list Z
}.

Definition SIZE_OF_RECORD : nat := 67.

(** [Record.__init__]: [nombre[:40]], [fecha[:15]]. *)
Definition make_record (i : Z) (n : list Z) (c : Z) (p : spec_float)
    (f : list Z) : record :=
  mkRecord i (firstn 40 n) c p (firstn 15 f).

(** [Record.pack]: the arguments are evaluated (both [encode()] calls) before
    [struct.pack] checks the integer fields. *)
Definition record_pack (r : record) : result (list Z) :=
  bn <-? utf8_encode r.(nombre) ;;
  bf <-? utf8_encode r.(fecha) ;;
  bi <-? pack_i r.(id) ;;
  bc <-? pack_i r.(cantidad) ;;
  Ret (bi ++ pack_s 40 (ljust 40 bn) ++ bc ++ pack_f r.(precio)
          ++ pack_s 15 (ljust 15 bf)).

(** [nombre.decode(errors="ignore").rstrip('\x00').strip()]. *)
Definition clean_text (bs : list Z) : list Z := strip (rstrip_nul (utf8_decode bs)).

(** [Record.unpack]: [struct.unpack] needs exactly 67 bytes. *)
Definition record_unpack (data : list Z) : result record :=
  if Nat.eqb (length data) SIZE_OF_RECORD then
    Ret (make_record (unpack_i (slice 0 4 data))
                     (clean_text (slice 4 40 data))
                     (unpack_i (slice 44 4 data))
                     (unpack_f (slice 48 4 data))
                     (clean_text (slice 52 15 data)))
  else Exc StructError.

(** ** Page (header ['ii'], then [BLOCK_FACTOR] record slots) *)

Record page := mkPage {
  records : list record;
  next_page : Z
}.

Definition BLOCK_FACTOR : nat := 3.
Definition SIZE_HEADER : nat := 8.
Definition SIZE_OF_PAGE : nat := SIZE_HEADER + BLOCK_FACTOR * SIZE_OF_RECORD.

Fixpoint pack_records (rs : list record) : result (list Z) :=
  match rs with
  | [] => Ret []
  | r :: rs' => b <-? record_pack r ;; bs <-? pack_records rs' ;; Ret (b ++ bs)
  end.

(** [Page.pack]: a negative [remaining] pads nothing ([b'\x00' * k], k < 0). *)
Definition page_pack (p : page) : result (list Z) :=
  hdr <-? pack_ii (Z.of_nat (length p.(records))) p.(next_page) ;;
  recs <-? pack_records p.(records) ;;
  Ret (hdr ++ recs
           ++ repeat 0 ((BLOCK_FACTOR - length p.(records)) * SIZE_OF_RECORD)).

(** The [for _ in range(size)] loop of [Page.unpack], from offset [off]. *)
Fixpoint unpack_records (n : nat) (data : list Z) (off : nat)
    : result (list record) :=
  match n with
  | O => Ret []
  | S n' =>
    r <-? record_unpack (slice off SIZE_OF_RECORD data) ;;
    rs <-? unpack_records n' data (off + SIZE_OF_RECORD) ;;
    Ret (r :: rs)
  end.

(** [Page.unpack]: [range(size)] is empty for a negative [size]. *)
Definition page_unpack (data : list Z) : result page :=
  let hd := firstn SIZE_HEADER data in
  if Nat.eqb (length hd) SIZE_HEADER then
    let size := unpack_i (firstn 4 hd) in
    let next := unpack_i (skipn 4 hd) in
    recs <-? unpack_records (Z.to_nat size) data SIZE_HEADER ;;
    Ret (mkPage recs next)
  else Exc StructError.

(** ** Files *)

(** [f.seek(off); f.read(n)]: a short read past the end of the file. *)
Definition read_at (off : Z) (n : nat) (f : list Z) : result (list Z) :=
  if off <? 0 then Exc SeekError else Ret (firstn n (skipn (Z.to_nat off) f)).

(** [f.seek(off); f.write(bs)]: a write past the end fills the gap with
    zero bytes. *)
Definition write_at (off : Z) (bs : list Z) (f : list Z) : result (list Z) :=
  if off <? 0 then Exc SeekError
  else
    let o := Z.to_nat off in
    Ret (firstn o f ++ repeat 0 (o - length f) ++ bs ++ skipn (o + length bs) f).

(** The store: the data file and the index file ([None]: no such file). *)
Record state := mkState {
  data : list Z;
  index : option (list Z)
}.

(** State passing with Python exceptions: what was written before an
    exception stays written. *)
Definition M (A : Type) : Type := state -> state * result A.

Definition ret {A} (a : A) : M A := fun s => (s, Ret a).
Definition bind {A B} (m : M A) (k : A -> M B) : M B :=
  fun s => match m s with
           | (s', Ret a) => k a s'
           | (s', Exc e) => (s', Exc e)
           end.
Definition lift {A} (r : result A) : M A := fun s => (s, r).

Notation "x <- m ;; k" := (bind m (fun x => k))
  (at level 61, m at next level, right associativity).
Notation "m ;;; k" := (bind m (fun _ => k))
  (at level 61, right associativity).

Definition set_data (f : list Z) : M unit :=
  fun s => (mkState f s.(index), Ret tt).
Definition set_index (ix : option (list Z)) : M unit :=
  fun s => (mkState s.(data) ix, Ret tt).
Definition get_state : M state := fun s => (s, Ret s).

(** ** [DataFile] *)

Definition num_pages (f : list Z) : Z :=
  Z.of_nat (length f) / Z.of_nat SIZE_OF_PAGE.

Definition d_num_pages : M Z := fun s => (s, Ret (num_pages s.(data))).

(** [_read_page]: seek, read [SIZE_OF_PAGE] bytes, [Page.unpack]. *)
Definition read_page (f : list Z) (page_no : Z) : result page :=
  bs <-? read_at (page_no * Z.of_nat SIZE_OF_PAGE) SIZE_OF_PAGE f ;;
  page_unpack bs.

Definition d_read_page (page_no : Z) : M page :=
  fun s => (s, read_page s.(data) page_no).

(** [_write_page]: [page.pack()] is evaluated after the seek. *)
Definition d_write_page (page_no : Z) (p : page) : M unit :=
  fun s =>
    let off := page_no * Z.of_nat SIZE_OF_PAGE in
    if off <? 0 then (s, Exc SeekError)
    else match page_pack p with
         | Exc e => (s, Exc e)
         | Ret bs =>
           match write_at off bs s.(data) with
           | Ret f => (mkState f s.(index), Ret tt)
           | Exc e => (s, Exc e)
           end
         end.

(** [_append_page]: write at [pno * SIZE_OF_PAGE], [pno] the page count. *)
Definition d_append_page (p : page) : M Z :=
  pno <- d_num_pages ;;
  d_write_page pno p ;;;
  ret pno.

(** ** [IndexFile] *)

(** The [while chunk := f.read(8)] loop of [_load_all]; [fuel] bounds the
    number of chunks (the file length suffices). *)
Fixpoint load_entries (fuel : nat) (bs : list Z) : result (list (Z * Z)) :=
  match fuel with
  | O => Ret []
  | S fuel' =>
    match bs with
    | [] => Ret []
    | _ =>
      let chunk := firstn 8 bs in
      if Nat.eqb (length chunk) 8 then
        es <-? load_entries fuel' (skipn 8 bs) ;;
        Ret ((unpack_i (firstn 4 chunk), unpack_i (skipn 4 chunk)) :: es)
      else Exc StructError
    end
  end.

Definition load_all (ix : option (list Z)) : result (list (Z * Z)) :=
  match ix with
  | None => Ret []
  | Some bs => load_entries (length bs) bs
  end.

(** The [for k, p in entries] loop: the last [p] with [k <= key] before the
    first [k > key]. *)
Fixpoint best_le (key : Z) (es : list (Z * Z)) (best : option Z) : option Z :=
  match es with
  | [] => best
  | (k, p) :: es' => if k <=? key then best_le key es' (Some p) else best
  end.

Definition page_for_key (es : list (Z * Z)) (key : Z) : Z :=
  match es with
  | [] => 0
  | (_, p0) :: _ =>
    match best_le key es None with Some p => p | None => p0 end
  end.

(** [find_page_for_key] (never [None]). *)
Definition find_page_for_key (key : Z) : M Z :=
  fun s => (s, es <-? load_all s.(index) ;; Ret (page_for_key es key)).

Definition ix_append (bs : list Z) : M unit :=
  fun s => (mkState s.(data) (Some (match s.(index) with
                                     | Some ix => ix ++ bs
                                     | None => bs end)), Ret tt).

(** The loop of [IndexFile.build] over [disk], the data file as the
    handle [df] of [build] reads it.  Page 0 is [df.read(SIZE_OF_PAGE)] at
    the start of the file.  For a later page the argument of [Page.unpack]
    is [df.seek(pno * SIZE_OF_PAGE, 0) or df.read(SIZE_OF_PAGE)]; [seek]
    returns the new position, a non-zero [int], so [or] yields that [int]
    and [Page.unpack] raises [TypeError] when it slices it. *)
Fixpoint build_pages (disk : list Z) (pnos : list Z) : M unit :=
  match pnos with
  | [] => ret tt
  | pno :: rest =>
    pg <- lift (if pno =? 0 then read_page disk 0 else Exc TypeError) ;;
    (match pg.(records) with
     | [] => ret tt
     | r :: _ => e <- lift (pack_ii r.(id) pno) ;; ix_append e
     end) ;;;
    build_pages disk rest
  end.

(** [IndexFile.build], reading the data file [disk]: the index file is
    truncated when opened ['wb'], and [n] is [os.path.getsize(data_path)
    // SIZE_OF_PAGE].  The data file exists whenever [insert] calls it, so
    the early [return] is not modelled. *)
Definition build (disk : list Z) : M unit :=
  set_index (Some []) ;;;
  build_pages disk (map Z.of_nat (seq 0 (Nat.div (length disk) SIZE_OF_PAGE))).

(** ** [ISAM] *)

(** [bisect.bisect_left(a, x)]: [lo < hi] loop; [fuel] bounds its
    iterations ([hi - lo] shrinks each time, [length a] suffices). *)
Fixpoint bisect_loop (fuel : nat) (a : list Z) (x : Z) (lo hi : nat) : nat :=
  match fuel with
  | O => lo
  | S fuel' =>
    if Nat.ltb lo hi then
      let mid := Nat.div (lo + hi) 2 in
      if nth mid a 0 <? x then bisect_loop fuel' a x (S mid) hi
      else bisect_loop fuel' a x lo mid
    else lo
  end.

Definition bisect_left (a : list Z) (x : Z) : nat :=
  bisect_loop (length a) a x 0 (length a).

(** [list.insert(pos, x)]. *)
Definition list_insert {A} (pos : nat) (x : A) (l : list A) : list A :=
  firstn pos l ++ x :: skipn pos l.

(** [_insert_into_page_sorted]. *)
Definition insert_into_page_sorted (p : page) (rec : record) : page :=
  let keys := map id p.(records) in
  let pos := bisect_left keys rec.(id) in
  mkPage (list_insert pos rec p.(records)) p.(next_page).

(** The index file is missing or empty. *)
Definition index_missing (ix : option (list Z)) : bool :=
  match ix with None => true | Some bs => Nat.eqb (length bs) 0 end.

(** [ISAM.insert].  Both branches of the [while True] loop end in [break],
    so its body runs once, on page [target].  The data file [f] is a
    buffered handle: every [f.seek] flushes the bytes written before it, so
    when [build] opens the file a second time only the last [_write_page]
    is still in [f]'s buffer (it reaches the file when the [with] block
    closes [f], normally or on an exception).  [build] therefore reads
    [disk], the data file as it was just before that last write. *)
Definition insert (rec : record) : M unit :=
  target <- find_page_for_key rec.(id) ;;
  n <- d_num_pages ;;
  if n =? 0 then
    d_append_page (mkPage [rec] (-1)) ;;;
    set_index (Some []) ;;;
    e <- lift (pack_ii rec.(id) 0) ;;
    ix_append e
  else
    cur_pg0 <- d_read_page target ;;
    let cur_pg := insert_into_page_sorted cur_pg0 rec in
    disk <- (if Nat.leb (length cur_pg.(records)) BLOCK_FACTOR then
               s0 <- get_state ;;
               d_write_page target cur_pg ;;;
               ret s0.(data)
             else
               let mid := Nat.div (length cur_pg.(records) + 1) 2 in
               let low := firstn mid cur_pg.(records) in
               let high := skipn mid cur_pg.(records) in
               new_no <- d_append_page (mkPage high cur_pg.(next_page)) ;;
               s0 <- get_state ;;
               d_write_page target (mkPage low new_no) ;;;
               ret s0.(data)) ;;
    s <- get_state ;;
    if index_missing s.(index) then build disk else ret tt.

Inductive search_result :=
| Found (r : record)
| NotFound
| Diverges.   (** the [while pno != -1] loop never ends *)

(** The chain walk of [ISAM.search].  Every iteration that does not return
    reads a page; once more iterations have run than there are readable page
    numbers, a page number has repeated and the loop cycles forever, so
    [length f + 1] iterations decide divergence. *)
Fixpoint search_chain (fuel : nat) (f : list Z) (key pno : Z)
    : result search_result :=
  match fuel with
  | O => Ret Diverges
  | S fuel' =>
    if pno =? -1 then Ret NotFound
    else
      pg <-? read_page f pno ;;
      match find (fun r => r.(id) =? key) pg.(records) with
      | Some r => Ret (Found r)
      | None => search_chain fuel' f key pg.(next_page)
      end
  end.

(** [ISAM.search]. *)
Definition search (key : Z) : M search_result :=
  pno <- find_page_for_key key ;;
  fun s => (s, search_chain (S (length s.(data))) s.(data) key pno).

(** The store [ISAM(...)] starts from: an empty data file, no index file. *)
Definition empty_store : state := mkState [] None.

(** Run a sequence of inserts, stopping at the first exception. *)
Fixpoint insert_all (rs : list record) : M unit :=
  match rs with
  | [] => ret tt
  | r :: rs' => insert r ;;; insert_all rs'
  end.

(** ** Observations used by the statements *)

(** The bytes of page [u] of a data file. *)
Definition block (u : nat) (f : list Z) : list Z :=
  slice (u * SIZE_OF_PAGE) SIZE_OF_PAGE f.

Definition page_ids (f : list Z) (pno : Z) : result (list Z * Z) :=
  pg <-? read_page f pno ;; Ret (map id pg.(records), pg.(next_page)).

(** Ids and [nextPage] of every page of the data file, in file order. *)
Definition all_pages (f : list Z) : result (list (list Z * Z)) :=
  fold_right (fun pno acc => p <-? page_ids f pno ;; ps <-? acc ;; Ret (p :: ps))
             (Ret []) (map Z.of_nat (seq 0 (Z.to_nat (num_pages f)))).

(** The module driver of [prueba.py]. *)
Definition driver_records : list record :=
  [ make_record 10 [65] 1 (py_float 1) [50;48;50;52;45;48;49;45;48;49];
    make_record 2  [66] 2 (py_float 2) [50;48;50;52;45;48;49;45;48;50];
    make_record 7  [67] 3 (py_float 3) [50;48;50;52;45;48;49;45;48;51];
    make_record 1  [68] 4 (py_float 4) [50;48;50;52;45;48;49;45;48;52];
    make_record 12 [69] 5 (py_float 5) [50;48;50;52;45;48;49;45;48;53];
    make_record 5  [70] 6 (py_float 6) [50;48;50;52;45;48;49;45;48;54];
    make_record 6  [71] 7 (py_float 7) [50;48;50;52;45;48;49;45;48;55] ].

Definition driver_state : state := fst (insert_all driver_records empty_store).

(** The chain from page [pno]: page numbers and ids, following
    [nextPage] up to [-1] ([fuel] pages at most). *)
Fixpoint chain (fuel : nat) (f : list Z) (pno : Z) : result (list (Z * list Z)) :=
  match fuel with
  | O => Ret []
  | S fuel' =>
    if pno =? -1 then Ret []
    else p <-? page_ids f pno ;;
         rest <-? chain fuel' f (snd p) ;;
         Ret ((pno, fst p) :: rest)
  end.

Definition chain0 (s : state) : result (list (Z * list Z)) :=
  chain (S (length s.(data))) s.(data) 0.

Definition index_entries (s : state) : result (list (Z * Z)) := load_all s.(index).

(** A record with id [k] and otherwise fixed fields. *)
Definition rec_k (k : Z) : record := make_record k [65] 1 (py_float 1) [50;48;50;52].

Definition store_of (ks : list Z) : state :=
  fst (insert_all (map rec_k ks) empty_store).

Definition strictly_increasing (l : list Z) : bool :=
  forallb (fun '(a, b) => a <? b) (combine l (tl l)).


(** A record whose name carries a trailing blank. *)
Definition r_blank : record := make_record 1 [65; 32] 1 (py_float 1) [].

(** The bytes [Page.pack] writes for a page of four records. *)
Definition four_record_bytes : list Z :=
  match page_pack (mkPage (map rec_k [1; 2; 3; 4]) (-1)) with
  | Ret bs => bs
  | Exc _ => []
  end.

(** The stores a fresh [ISAM(...)] reaches through calls of [insert];
    [ks] lists the ids of the calls that returned normally, latest first.
    A call that raises leaves whatever it wrote before the exception. *)
Inductive reach : state -> list Z -> Prop :=
| reach_empty : reach empty_store []
| reach_ok (s : state) (ks : list Z) (r : record) :
    reach s ks -> snd (insert r s) = Ret tt -> reach (fst (insert r s)) (r.(id) :: ks)
| reach_exc (s : state) (ks : list Z) (r : record) (e : exn) :
    reach s ks -> snd (insert r s) = Exc e -> reach (fst (insert r s)) ks.

(** Data file [f] with the bytes of page [t] replaced by [bs]. *)
Definition overwrite_page (t : nat) (bs f : list Z) : list Z :=
  firstn (t * SIZE_OF_PAGE) f ++ bs ++ skipn (t * SIZE_OF_PAGE + SIZE_OF_PAGE) f.

(** The tail of [insert] once its writes are done: the index is rebuilt
    from [disk] (the data file before the last page write) when its file is
    missing or empty. *)
Definition insert_finish (disk f : list Z) (ix : option (list Z)) : state * result unit :=
  if index_missing ix then build disk (mkState f ix) else (mkState f ix, Ret tt).

(** A text field that [Record.pack] stores and [Record.unpack] gives back:
    code points of a Python [str], an encoding of at most [w] bytes, and no
    edge that [rstrip('\x00')] or [strip()] would remove. *)
Definition text_ok (w : nat) (s : list Z) : Prop :=
  Forall (fun c => 0 <= c <= 1114111) s
  /\ (exists bs, utf8_encode s = Ret bs /\ (length bs <= w)%nat)
  /\ rstrip_nul s = s /\ strip s = s.

(** The chain from page [pno] as a relation: the pages met following
    [next_page] until [-1], each with its ids. *)
Inductive links (f : list Z) : Z -> list (Z * list Z) -> Prop :=
| links_end : links f (-1) []
| links_step (pno nx : Z) (ids : list Z) (L : list (Z * list Z)) :
    pno <> -1 -> page_ids f pno = Ret (ids, nx) -> links f nx L ->
    links f pno ((pno, ids) :: L).

(** What every store reached from [empty_store] looks like: either still
    empty, or [n] pages with the single index entry [(k0, 0)], and a chain
    from page 0 of distinct pages, each sorted with one to [BLOCK_FACTOR]
    records, holding the ids [ks] of the inserts that returned. *)
Definition store_inv (s : state) (ks : list Z) : Prop :=
  (s = empty_store /\ ks = [])
  \/ exists (n : nat) (k0 : Z) (L : list (Z * list Z)),
       (0 < n)%nat /\ length s.(data) = (n * SIZE_OF_PAGE)%nat
       /\ s.(index) = Some (le_bytes 4 k0 ++ le_bytes 4 0) /\ - 2 ^ 31 <= k0 < 2 ^ 31
       /\ links s.(data) 0 L /\ NoDup (map fst L)
       /\ Forall (fun p => 0 <= p < Z.of_nat n) (map fst L)
       /\ Forall (fun ids => Sorted Z.le ids /\ (1 <= length ids <= BLOCK_FACTOR)%nat)
                 (map snd L)
       /\ Permutation (concat (map snd L)) ks.

(** ** [p1.py]: [Page.position] and [IndexFile] *)

Module P1.

(** The [while left <= right] loop of [Page.position]; [None] is the
    [return None] of an id already present.  Every iteration shrinks
    [right - left], so [fuel] beyond the window size is never used up. *)
Fixpoint position_loop (fuel : nat) (ids : list Z) (x left right : Z) : option Z :=
  match fuel with
  | O => Some left
  | S fuel' =>
    if left <=? right then
      let mid := (left + right) / 2 in
      let mid_id := nth (Z.to_nat mid) ids 0 in
      if mid_id =? x then None
      else if mid_id <? x then position_loop fuel' ids x (mid + 1) right
      else position_loop fuel' ids x left (mid - 1)
    else Some left
  end.

(** [Page.position]. *)
Definition position (p : page) (record_id : Z) : option Z :=
  let ids := map id p.(records) in
  position_loop (S (length ids)) ids record_id 0 (Z.of_nat (length ids) - 1).

(** [struct.unpack('i', file.read(4))] at offset [off]: a short read
    raises [struct.error]. *)
Definition read_i (bs : list Z) (off : nat) : result Z :=
  let chunk := slice off 4 bs in
  if Nat.eqb (length chunk) 4 then Ret (unpack_i chunk) else Exc StructError.

(** The [for i in range(1, size)] loop of [getIndex]: [(pages, keys)]. *)
Fixpoint read_pairs (n : nat) (bs : list Z) (off : nat) : result (list Z * list Z) :=
  match n with
  | O => Ret ([], [])
  | S n' =>
    ki <-? read_i bs off ;;
    pi <-? read_i bs (off + 4) ;;
    r <-? read_pairs n' bs (off + 8) ;;
    Ret (pi :: fst r, ki :: snd r)
  end.

(** [IndexFile.getIndex] on the bytes of an existing index file: a size,
    the page [p0], then [size - 1] pairs [(k_i, p_i)]. *)
Definition getIndex (bs : list Z) : result (list Z * list Z) :=
  size <-? read_i bs 0 ;;
  if size =? 1 then
    p0 <-? read_i bs 4 ;;
    Ret ([p0], [])
  else
    p0 <-? read_i bs 4 ;;
    r <-? read_pairs (Z.to_nat (size - 1)) bs 8 ;;
    Ret (p0 :: fst r, snd r).

(** [IndexFile.addIndex] on the index file ([None]: no such file); every
    [file.write] made before an exception stays. *)
Definition addIndex (page_pos key : Z) (ix : option (list Z))
    : option (list Z) * result unit :=
  match ix with
  | None =>
    match pack_i 1 with
    | Exc e => (Some [], Exc e)
    | Ret bh =>
      match pack_i page_pos with
      | Exc e => (Some bh, Exc e)
      | Ret bp => (Some (bh ++ bp), Ret tt)
      end
    end
  | Some bs =>
    match pack_i key with
    | Exc e => (Some bs, Exc e)
    | Ret bk =>
      let f1 := bs ++ bk in
      match pack_i page_pos with
      | Exc e => (Some f1, Exc e)
      | Ret bp =>
        let f2 := f1 ++ bp in
        match read_i f2 0 with
        | Exc e => (Some f2, Exc e)
        | Ret size =>
          match pack_i (size + 1) with
          | Exc e => (Some f2, Exc e)
          | Ret bs' =>
            match write_at 0 bs' f2 with
            | Exc e => (Some f2, Exc e)
            | Ret f3 => (Some f3, Ret tt)
            end
          end
        end
      end
    end
  end.

(** The upper-bound loop of [updateIndex] ([while left < right]). *)
Fixpoint upper_loop (fuel : nat) (keys : list Z) (key left right : Z) : Z :=
  match fuel with
  | O => left
  | S fuel' =>
    if left <? right then
      let mid := (left + right) / 2 in
      if nth (Z.to_nat mid) keys 0 <=? key then upper_loop fuel' keys key (mid + 1) right
      else upper_loop fuel' keys key left mid
    else left
  end.

(** [struct.pack('i', v)] for each [v] in turn: the bytes produced before
    the first [struct.error], and that error. *)
Fixpoint pack_seq (vs : list Z) : list Z * option exn :=
  match vs with
  | [] => ([], None)
  | v :: vs' =>
    match pack_i v with
    | Exc e => ([], Some e)
    | Ret b => let '(w, e) := pack_seq vs' in (b ++ w, e)
    end
  end.

(** [IndexFile.updateIndex].  The [assert] always holds: [getIndex] returns
    one page more than keys.  The file is rewritten from offset 0 and
    truncated where the writes end; an exception skips the truncation. *)
Definition updateIndex (page_pos key : Z) (ix : option (list Z))
    : option (list Z) * result bool :=
  match ix with
  | None => (None, Ret false)
  | Some bs =>
    match getIndex bs with
    | Exc e => (Some bs, Exc e)
    | Ret (pages, keys) =>
      match pages with
      | [] => (Some bs, Ret false)
      | p0 :: tail_pages =>
        let pos := Z.to_nat (upper_loop (length keys) keys key 0 (Z.of_nat (length keys))) in
        let new_keys := firstn pos keys ++ [key] ++ skipn pos keys in
        let new_tail_pages := firstn pos tail_pages ++ [page_pos] ++ skipn pos tail_pages in
        let new_size := Z.of_nat (length pages) + 1 in
        let '(w, err) := pack_seq (new_size :: p0
                           :: flat_map (fun kp => [fst kp; snd kp])
                                       (combine new_keys new_tail_pages)) in
        match write_at 0 w bs, err with
        | Exc e, _ => (Some bs, Exc e)
        | Ret f, Some e => (Some f, Exc e)
        | Ret f, None => (Some (firstn (length w) f), Ret true)
        end
      end
    end
  end.

Inductive position_result := START | END | At (p : Z).

(** The [while left <= right] loop of [search_position]. *)
Fixpoint lower_loop (fuel : nat) (keys : list Z) (x left right : Z) : Z :=
  match fuel with
  | O => left
  | S fuel' =>
    if left <=? right then
      let mid := (left + right) / 2 in
      if nth (Z.to_nat mid) keys 0 <? x then lower_loop fuel' keys x (mid + 1) right
      else lower_loop fuel' keys x left (mid - 1)
    else left
  end.

(** [IndexFile.search_position] on the bytes of an existing index file. *)
Definition search_position (bs : list Z) (record_id : Z) : result position_result :=
  r <-? getIndex bs ;;
  let keys := snd r in
  if Nat.eqb (length keys) 0 then Ret START
  else
    let left := lower_loop (S (length keys)) keys record_id 0 (Z.of_nat (length keys) - 1) in
    if left =? Z.of_nat (length keys) then Ret END else Ret (At (left + 1)).

(** The bytes of an index file with [p0] and the pairs [(k_i, p_i)], as
    [addIndex] and [updateIndex] write them. *)
Definition index_bytes (p0 : Z) (pairs : list (Z * Z)) : list Z :=
  le_bytes 4 (Z.of_nat (length pairs) + 1) ++ le_bytes 4 p0
  ++ concat (map (fun kp => le_bytes 4 (fst kp) ++ le_bytes 4 (snd kp)) pairs).

End P1.

(** ** Concrete runs *)

Ltac run := vm_compute; reflexivity.

(** (C1) As the claim states it: the chain from page 0 holds 1,2,5,6,7,10,12
    in two pages of sizes 4 and 3, and the index is [(1, 0)].  False. *)
Lemma C1_counterexample :
  ~ (rbind (chain0 driver_state)
       (fun L => Ret (concat (map snd L), map (fun p => length (snd p)) L))
     = Ret ([1; 2; 5; 6; 7; 10; 12], [4%nat; 3%nat])
     /\ index_entries driver_state = Ret [(1, 0)]).
Proof. vm_compute. intros [H _]. discriminate H. Qed.

(** C1 (amended): the driver's seven inserts all succeed and leave page 0 =
    [1,2,6] -> page 2 = [5,12] -> page 1 = [7,10] -> -1, each page sorted with
    at most three records, and the index [(10, 0)]: the first inserted id. *)
Theorem C1_driver_final_state :
  snd (insert_all driver_records empty_store) = Ret tt
  /\ all_pages driver_state.(data) = Ret [([1; 2; 6], 2); ([7; 10], -1); ([5; 12], 1)]
  /\ chain0 driver_state = Ret [(0, [1; 2; 6]); (2, [5; 12]); (1, [7; 10])]
  /\ index_entries driver_state = Ret [(10, 0)].
Proof. repeat split; run. Qed.

(** C2 (code bug): inserting id 10 into a store that holds id 10 succeeds,
    changes the data file and leaves two records with id 10 in page 0. *)
Theorem C2_duplicate_inserted :
  snd (insert_all (map rec_k [10; 10]) empty_store) = Ret tt
  /\ (store_of [10; 10]).(data) <> (store_of [10]).(data)
  /\ all_pages (store_of [10; 10]).(data) = Ret [([10; 10], -1)].
Proof. split; [run | split; [vm_compute; discriminate | run]]. Qed.

(** (C3) The chain of [store_of [1;2;3;4]] is page 0 -> page 1; inserting 5
    changes page 0, the primary page, and leaves page 1, the last page of
    the chain, as it was. *)
Lemma C3_counterexample :
  chain0 (store_of [1; 2; 3; 4]) = Ret [(0, [1; 2]); (1, [3; 4])]
  /\ snd (insert (rec_k 5) (store_of [1; 2; 3; 4])) = Ret tt
  /\ page_ids (fst (insert (rec_k 5) (store_of [1; 2; 3; 4]))).(data) 0
     = Ret ([1; 2; 5], 1)
  /\ page_ids (fst (insert (rec_k 5) (store_of [1; 2; 3; 4]))).(data) 1
     = Ret ([3; 4], -1).
Proof. repeat split; run. Qed.


(** (C7) A name with a trailing blank does not survive the round trip. *)
Lemma C7_counterexample :
  rbind (record_pack r_blank) record_unpack = Ret (make_record 1 [65] 1 (py_float 1) [])
  /\ rbind (record_pack r_blank) record_unpack <> Ret r_blank.
Proof. split; [run | vm_compute; congruence]. Qed.

(** C8 (code bug): inserting 5, 3, 5 leaves page 0 with ids [3; 5; 5],
    not strictly increasing. *)
Theorem C8_page_not_strict :
  snd (insert_all (map rec_k [5; 3; 5]) empty_store) = Ret tt
  /\ all_pages (store_of [5; 3; 5]).(data) = Ret [([3; 5; 5], -1)]
  /\ strictly_increasing [3; 5; 5] = false.
Proof. repeat split; run. Qed.

(** (C9) A 276-byte buffer whose count is 4 > BLOCK_FACTOR decodes to a page
    of four records: [Page.unpack] has no count check. *)
Lemma C9_counterexample :
  length four_record_bytes = 276%nat
  /\ unpack_i (firstn 4 four_record_bytes) = 4
  /\ rbind (page_unpack four_record_bytes) (fun pg => Ret (map id pg.(records)))
     = Ret [1; 2; 3; 4].
Proof. repeat split; run. Qed.



(** ** [struct] lemmas *)

Lemma Ret_inj {A} (a b : A) : Ret a = Ret b -> a = b.
Proof. intro H. now injection H. Qed.

Lemma le_bytes_length n v : length (le_bytes n v) = n.
Proof. revert v; induction n; simpl; auto. Qed.

Lemma le_value_le_bytes n v : le_value (le_bytes n v) = v mod 2 ^ (8 * Z.of_nat n).
Proof.
  revert v; induction n as [|n IH]; intro v; unfold le_value in *.
  - simpl. now rewrite Z.mod_1_r.
  - cbn [le_bytes fold_right]. rewrite IH.
    rewrite Z.shiftr_div_pow2 by lia.
    change 255 with (Z.ones 8). rewrite Z.land_ones by lia.
    replace (8 * Z.of_nat (S n)) with (8 + 8 * Z.of_nat n) by lia.
    rewrite Z.pow_add_r by lia.
    rewrite Z.rem_mul_r; [reflexivity | lia | apply Z.pow_pos_nonneg; lia].
Qed.

Lemma unpack_i_le_bytes v :
  - 2 ^ 31 <= v < 2 ^ 31 -> unpack_i (le_bytes 4 v) = v.
Proof.
  intro Hv. unfold unpack_i. rewrite le_value_le_bytes.
  change (2 ^ (8 * Z.of_nat 4)) with 4294967296 in *.
  change (2 ^ 31) with 2147483648 in *. change (2 ^ 32) with 4294967296.
  destruct (Z.ltb_spec (v mod 4294967296) 2147483648).
  - destruct (Z.leb_spec 0 v).
    + apply Z.mod_small; lia.
    + exfalso. assert (v mod 4294967296 = v + 4294967296); [|lia].
      rewrite <- (Z_mod_plus_full v 1). apply Z.mod_small; lia.
  - destruct (Z.leb_spec 0 v).
    + rewrite Z.mod_small in *; lia.
    + assert (v mod 4294967296 = v + 4294967296); [|lia].
      rewrite <- (Z_mod_plus_full v 1). apply Z.mod_small; lia.
Qed.

Lemma pack_i_spec v bs :
  pack_i v = Ret bs ->
  bs = le_bytes 4 v /\ length bs = 4%nat /\ unpack_i bs = v /\ - 2 ^ 31 <= v < 2 ^ 31.
Proof.
  unfold pack_i. destruct ((- 2 ^ 31 <=? v) && (v <? 2 ^ 31)) eqn:E; [|discriminate].
  intro H; apply Ret_inj in H; subst. apply andb_prop in E as [E1 E2].
  apply Z.leb_le in E1. apply Z.ltb_lt in E2.
  repeat split; try lia. apply unpack_i_le_bytes; lia.
Qed.

Lemma pack_i_in_range v :
  - 2 ^ 31 <= v < 2 ^ 31 -> pack_i v = Ret (le_bytes 4 v).
Proof.
  intro Hv. unfold pack_i.
  replace ((- 2 ^ 31 <=? v) && (v <? 2 ^ 31)) with true; [reflexivity|].
  symmetry. apply andb_true_intro. split; [apply Z.leb_le | apply Z.ltb_lt]; lia.
Qed.

Lemma firstn_app_exact {A} (l1 l2 : list A) : firstn (length l1) (l1 ++ l2) = l1.
Proof.
  rewrite firstn_app, firstn_all, Nat.sub_diag, firstn_O. apply app_nil_r.
Qed.

Lemma skipn_app_exact {A} (l1 l2 : list A) : skipn (length l1) (l1 ++ l2) = l2.
Proof. rewrite skipn_app, skipn_all, Nat.sub_diag. reflexivity. Qed.

Lemma pack_ii_spec a b bs :
  pack_ii a b = Ret bs ->
  length bs = 8%nat /\ unpack_i (firstn 4 bs) = a /\ unpack_i (skipn 4 bs) = b
  /\ - 2 ^ 31 <= a < 2 ^ 31 /\ - 2 ^ 31 <= b < 2 ^ 31.
Proof.
  unfold pack_ii.
  destruct (pack_i a) as [ba|] eqn:Ha; [|discriminate]. cbn [rbind].
  destruct (pack_i b) as [bb|] eqn:Hb; [|discriminate]. cbn [rbind].
  intro H; apply Ret_inj in H; subst.
  apply pack_i_spec in Ha as (_ & La & Ua & Ra).
  apply pack_i_spec in Hb as (_ & Lb & Ub & Rb).
  rewrite <- La, firstn_app_exact, skipn_app_exact, length_app.
  repeat split; auto; lia.
Qed.

(** ** Slices *)

Lemma slice_app_l a k l1 l2 :
  (a + k <= length l1)%nat -> slice a k (l1 ++ l2) = slice a k l1.
Proof.
  intro H. unfold slice. rewrite skipn_app, firstn_app, length_skipn.
  replace (k - (length l1 - a))%nat with 0%nat by lia.
  now rewrite firstn_O, app_nil_r.
Qed.

Lemma slice_app_r a k l1 l2 :
  (length l1 <= a)%nat -> slice a k (l1 ++ l2) = slice (a - length l1) k l2.
Proof.
  intro H. unfold slice. rewrite skipn_app, (skipn_all2 l1) by lia. reflexivity.
Qed.

Lemma slice_firstn a k m l :
  (a + k <= m)%nat -> slice a k (firstn m l) = slice a k l.
Proof.
  intro H. unfold slice. rewrite skipn_firstn_comm, firstn_firstn.
  f_equal. lia.
Qed.

Lemma slice_skipn a k m l : slice a k (skipn m l) = slice (m + a) k l.
Proof. unfold slice. rewrite skipn_skipn. f_equal. f_equal. lia. Qed.

Lemma slice_all l : slice 0 (length l) l = l.
Proof. unfold slice. now rewrite skipn_O, firstn_all. Qed.

Lemma slice_prefix pre b post :
  slice (length pre) (length b) (pre ++ b ++ post) = b.
Proof.
  rewrite slice_app_r by lia. rewrite Nat.sub_diag.
  rewrite slice_app_l by lia. apply slice_all.
Qed.

Lemma length_slice_le a k l : (length (slice a k l) <= k)%nat.
Proof. unfold slice. rewrite length_firstn. lia. Qed.

Lemma length_slice a k l :
  (a + k <= length l)%nat -> length (slice a k l) = k.
Proof. intro H. unfold slice. rewrite length_firstn, length_skipn. lia. Qed.

(** ** Record and page codec lemmas *)

Lemma pack_s_length n bs : length (pack_s n bs) = n.
Proof. unfold pack_s. rewrite length_app, length_firstn, repeat_length. lia. Qed.

Lemma pack_f_length x : length (pack_f x) = 4%nat.
Proof. apply le_bytes_length. Qed.

Lemma record_unpack_ok b :
  length b = SIZE_OF_RECORD ->
  exists r, record_unpack b = Ret r /\ id r = unpack_i (slice 0 4 b).
Proof.
  intro H. unfold record_unpack. rewrite H, Nat.eqb_refl.
  eexists; split; reflexivity.
Qed.

Lemma record_unpack_length b r :
  record_unpack b = Ret r -> length b = SIZE_OF_RECORD.
Proof.
  unfold record_unpack. destruct (Nat.eqb_spec (length b) SIZE_OF_RECORD); auto.
  discriminate.
Qed.

Lemma record_pack_spec r b :
  record_pack r = Ret b ->
  length b = SIZE_OF_RECORD /\ slice 0 4 b = le_bytes 4 r.(id)
  /\ - 2 ^ 31 <= r.(id) < 2 ^ 31.
Proof.
  unfold record_pack.
  destruct (utf8_encode (nombre r)) as [bn|]; [|discriminate]. cbn [rbind].
  destruct (utf8_encode (fecha r)) as [bf|]; [|discriminate]. cbn [rbind].
  destruct (pack_i (id r)) as [bi|] eqn:Hi; [|discriminate]. cbn [rbind].
  destruct (pack_i (cantidad r)) as [bc|] eqn:Hc; [|discriminate]. cbn [rbind].
  intro H; apply Ret_inj in H; subst b.
  apply pack_i_spec in Hi as (Ei & Li & _ & Ri).
  apply pack_i_spec in Hc as (_ & Lc & _ & _).
  repeat split; try lia.
  - rewrite !length_app, !pack_s_length, pack_f_length, Li, Lc. reflexivity.
  - rewrite slice_app_l by lia. rewrite <- Ei, <- Li. apply slice_all.
Qed.

Lemma record_roundtrip_id r b :
  record_pack r = Ret b -> exists r', record_unpack b = Ret r' /\ r'.(id) = r.(id).
Proof.
  intro H. destruct (record_pack_spec _ _ H) as (L & S & R).
  destruct (record_unpack_ok b L) as (r' & E & I).
  exists r'. split; auto. rewrite I, S. now apply unpack_i_le_bytes.
Qed.

Lemma pack_records_length rs bs :
  pack_records rs = Ret bs -> length bs = (length rs * SIZE_OF_RECORD)%nat.
Proof.
  revert bs; induction rs as [|r rs IH]; intros bs H; cbn [pack_records] in H.
  - apply Ret_inj in H. now subst.
  - destruct (record_pack r) as [b|] eqn:Hr; [|discriminate]. cbn [rbind] in H.
    destruct (pack_records rs) as [bs'|]; [|discriminate]. cbn [rbind] in H.
    apply Ret_inj in H; subst bs.
    destruct (record_pack_spec _ _ Hr) as (L & _).
    rewrite length_app, L, (IH bs' eq_refl). simpl. lia.
Qed.

Lemma unpack_records_packed rs recs pre post :
  pack_records rs = Ret recs ->
  exists rs', unpack_records (length rs) (pre ++ recs ++ post) (length pre) = Ret rs'
              /\ map id rs' = map id rs.
Proof.
  revert recs pre; induction rs as [|r rs IH]; intros recs pre H;
    cbn [pack_records] in H.
  - exists []. split; reflexivity.
  - destruct (record_pack r) as [b|] eqn:Hr; [|discriminate]. cbn [rbind] in H.
    destruct (pack_records rs) as [bs'|] eqn:Hrs; [|discriminate]. cbn [rbind] in H.
    apply Ret_inj in H; subst recs.
    destruct (record_pack_spec _ _ Hr) as (L & _).
    destruct (record_roundtrip_id _ _ Hr) as (r' & E & I).
    destruct (IH bs' (pre ++ b) eq_refl) as (rs' & E' & I').
    exists (r' :: rs'). cbn [unpack_records length].
    rewrite <- L, <- app_assoc, slice_prefix, E. cbn [rbind].
    rewrite app_assoc, <- (length_app pre b), E'. cbn [rbind].
    split; [reflexivity|]. cbn [map]. now rewrite I, I'.
Qed.

Lemma unpack_records_spec n data off rs :
  unpack_records n data off = Ret rs ->
  length rs = n /\ (n = 0 \/ off + n * SIZE_OF_RECORD <= length data)%nat.
Proof.
  revert off rs; induction n as [|n IH]; intros off rs H; cbn [unpack_records] in H.
  - apply Ret_inj in H. subst. auto.
  - destruct (record_unpack (slice off SIZE_OF_RECORD data)) as [r|] eqn:Hr;
      [|discriminate]. cbn [rbind] in H.
    destruct (unpack_records n data (off + SIZE_OF_RECORD)) as [rs'|] eqn:Hn;
      [|discriminate]. cbn [rbind] in H.
    apply Ret_inj in H; subst rs.
    apply record_unpack_length in Hr. unfold slice in Hr.
    rewrite length_firstn, length_skipn in Hr.
    destruct (IH _ _ Hn) as [Ln B]. cbn [length]. split; [now rewrite Ln|].
    right. unfold SIZE_OF_RECORD in *. lia.
Qed.

Lemma page_pack_spec p bs :
  page_pack p = Ret bs ->
  length bs = (SIZE_HEADER + length p.(records) * SIZE_OF_RECORD
               + (BLOCK_FACTOR - length p.(records)) * SIZE_OF_RECORD)%nat
  /\ exists p', page_unpack bs = Ret p'
                /\ map id p'.(records) = map id p.(records)
                /\ p'.(next_page) = p.(next_page).
Proof.
  unfold page_pack.
  destruct (pack_ii (Z.of_nat (length (records p))) (next_page p)) as [hdr|] eqn:Hh;
    [|discriminate]. cbn [rbind].
  destruct (pack_records (records p)) as [recs|] eqn:Hr; [|discriminate]. cbn [rbind].
  intro H; apply Ret_inj in H; subst bs.
  apply pack_ii_spec in Hh as (Lh & Uc & Un & _ & _).
  split.
  - rewrite !length_app, Lh, (pack_records_length _ _ Hr), repeat_length.
    reflexivity.
  - destruct (unpack_records_packed _ _ hdr
                (repeat 0 ((BLOCK_FACTOR - length (records p)) * SIZE_OF_RECORD))
                Hr) as (rs' & E & I).
    exists (mkPage rs' (next_page p)). unfold page_unpack. unfold SIZE_HEADER.
    rewrite <- Lh, firstn_app_exact, Nat.eqb_refl, Uc, Un, Nat2Z.id, E.
    cbn [rbind]. auto.
Qed.

Lemma record_unpack_exc b e : record_unpack b = Exc e -> e = StructError.
Proof.
  unfold record_unpack. destruct (Nat.eqb (length b) SIZE_OF_RECORD); [discriminate|].
  intro H; injection H; auto.
Qed.

Lemma unpack_records_exc n data off e :
  unpack_records n data off = Exc e -> e = StructError.
Proof.
  revert off; induction n as [|n IH]; intros off H; cbn [unpack_records] in H;
    [discriminate|].
  destruct (record_unpack (slice off SIZE_OF_RECORD data)) as [r|e'] eqn:Hr;
    cbn [rbind] in H.
  - destruct (unpack_records n data (off + SIZE_OF_RECORD)) as [rs'|e''] eqn:Hn;
      cbn [rbind] in H; [discriminate|].
    injection H as <-. eapply IH; eauto.
  - injection H as <-. eapply record_unpack_exc; eauto.
Qed.

Lemma unpack_records_ok n data off :
  (off + n * SIZE_OF_RECORD <= length data)%nat ->
  exists rs, unpack_records n data off = Ret rs /\ length rs = n
    /\ forall i, (i < n)%nat -> exists r, nth_error rs i = Some r
         /\ record_unpack (slice (off + i * SIZE_OF_RECORD) SIZE_OF_RECORD data) = Ret r.
Proof.
  revert off; induction n as [|n IH]; intros off Hb.
  - exists []. repeat split. intros i Hi; lia.
  - destruct (record_unpack_ok (slice off SIZE_OF_RECORD data)) as (r & Er & _).
    { apply length_slice. unfold SIZE_OF_RECORD in *. lia. }
    destruct (IH (off + SIZE_OF_RECORD)%nat) as (rs & E & L & P);
      [unfold SIZE_OF_RECORD in *; lia|].
    exists (r :: rs). cbn [unpack_records]. rewrite Er. cbn [rbind]. rewrite E.
    cbn [rbind]. repeat split; [cbn; now rewrite L|].
    intros [|i] Hi.
    + exists r. rewrite Nat.add_0_r. auto.
    + destruct (P i) as (r' & N & U); [lia|]. exists r'. split; [exact N|].
      replace (off + S i * SIZE_OF_RECORD)%nat
        with (off + SIZE_OF_RECORD + i * SIZE_OF_RECORD)%nat
        by (unfold SIZE_OF_RECORD; lia). exact U.
Qed.

(** C9 (amended): [Page.unpack] decodes exactly the slots its count names.
    On a buffer of [SIZE_OF_PAGE] bytes with [count <= BLOCK_FACTOR] it
    returns [max count 0] records, the [i]-th decoded from slot [i]; on a
    buffer of at most [SIZE_OF_PAGE] bytes (all its callers read at most
    that) a count above [BLOCK_FACTOR] raises [struct.error] at the first
    slot past the end of the buffer. *)
Theorem C9_page_unpack_count (data : list Z) :
  (length data = SIZE_OF_PAGE ->
   unpack_i (firstn 4 data) <= Z.of_nat BLOCK_FACTOR ->
   exists pg, page_unpack data = Ret pg
     /\ length pg.(records) = Z.to_nat (unpack_i (firstn 4 data))
     /\ pg.(next_page) = unpack_i (slice 4 4 data)
     /\ forall i, (i < length pg.(records))%nat ->
          exists r, nth_error pg.(records) i = Some r
            /\ record_unpack (slice (SIZE_HEADER + i * SIZE_OF_RECORD)
                                    SIZE_OF_RECORD data) = Ret r)
  /\ ((length data <= SIZE_OF_PAGE)%nat ->
      Z.of_nat BLOCK_FACTOR < unpack_i (firstn 4 data) ->
      page_unpack data = Exc StructError).
Proof.
  unfold page_unpack. rewrite firstn_firstn. change (Nat.min 4 SIZE_HEADER) with 4%nat.
  split.
  - intros L C.
    rewrite length_firstn, L. change (Nat.eqb (Nat.min SIZE_HEADER SIZE_OF_PAGE) SIZE_HEADER)
      with true. cbv zeta.
    destruct (unpack_records_ok (Z.to_nat (unpack_i (firstn 4 data))) data SIZE_HEADER)
      as (rs & E & Lr & P).
    { rewrite L. unfold SIZE_OF_PAGE, BLOCK_FACTOR, SIZE_HEADER, SIZE_OF_RECORD in *. lia. }
    rewrite E. cbn [rbind]. eexists; split; [reflexivity|]. cbn [records next_page].
    split; [exact Lr|]. split.
    + unfold slice. rewrite skipn_firstn_comm. reflexivity.
    + rewrite Lr. exact P.
  - intros L C.
    destruct (Nat.eqb_spec (length (firstn SIZE_HEADER data)) SIZE_HEADER); [|reflexivity].
    cbv zeta.
    destruct (unpack_records (Z.to_nat (unpack_i (firstn 4 data))) data SIZE_HEADER)
      as [rs|ex] eqn:E; cbn [rbind].
    + exfalso. apply unpack_records_spec in E as [_ [E|E]];
        unfold SIZE_OF_PAGE, BLOCK_FACTOR, SIZE_HEADER, SIZE_OF_RECORD in *; lia.
    + apply unpack_records_exc in E. now subst.
Qed.

(** ** Pages of a data file *)

Lemma size_of_page : SIZE_OF_PAGE = 209%nat.
Proof. reflexivity. Qed.


Lemma read_page_block (f : list Z) (u : nat) :
  read_page f (Z.of_nat u) = page_unpack (block u f).
Proof.
  unfold read_page, read_at.
  replace (Z.of_nat u * Z.of_nat SIZE_OF_PAGE <? 0) with false
    by (symmetry; apply Z.ltb_ge; lia).
  cbn [rbind]. rewrite <- Nat2Z.inj_mul, Nat2Z.id. reflexivity.
Qed.

Lemma read_page_range (f : list Z) (t : Z) (pg : page) :
  read_page f t = Ret pg ->
  0 <= t /\ (Z.to_nat t * SIZE_OF_PAGE + SIZE_HEADER <= length f)%nat.
Proof.
  unfold read_page, read_at.
  destruct (Z.ltb_spec (t * Z.of_nat SIZE_OF_PAGE) 0) as [H|H]; [discriminate|].
  cbn [rbind]. unfold page_unpack.
  destruct (Nat.eqb_spec (length (firstn SIZE_HEADER
             (firstn SIZE_OF_PAGE (skipn (Z.to_nat (t * Z.of_nat SIZE_OF_PAGE)) f))))
             SIZE_HEADER) as [E|E]; [|discriminate].
  intros _. rewrite !length_firstn, length_skipn in E.
  rewrite size_of_page in *. unfold SIZE_HEADER in *.
  assert (0 <= t) by lia. split; [assumption|]. lia.
Qed.

Lemma write_at_in_place (f : list Z) (t : nat) (bs : list Z) :
  ((t + 1) * SIZE_OF_PAGE <= length f)%nat -> length bs = SIZE_OF_PAGE ->
  write_at (Z.of_nat (t * SIZE_OF_PAGE)) bs f
  = Ret (firstn (t * SIZE_OF_PAGE) f ++ bs ++ skipn (t * SIZE_OF_PAGE + SIZE_OF_PAGE) f).
Proof.
  intros H L. unfold write_at.
  replace (Z.of_nat (t * SIZE_OF_PAGE) <? 0) with false by (symmetry; apply Z.ltb_ge; lia).
  rewrite Nat2Z.id, L. replace (t * SIZE_OF_PAGE - length f)%nat with 0%nat by lia.
  reflexivity.
Qed.

Lemma write_at_end (f bs : list Z) :
  write_at (Z.of_nat (length f)) bs f = Ret (f ++ bs).
Proof.
  unfold write_at.
  replace (Z.of_nat (length f) <? 0) with false by (symmetry; apply Z.ltb_ge; lia).
  rewrite Nat2Z.id, Nat.sub_diag, firstn_all, skipn_all2 by lia.
  cbn [repeat app]. now rewrite app_nil_r.
Qed.

Lemma length_in_place (f : list Z) (t : nat) (bs : list Z) :
  ((t + 1) * SIZE_OF_PAGE <= length f)%nat -> length bs = SIZE_OF_PAGE ->
  length (firstn (t * SIZE_OF_PAGE) f ++ bs ++ skipn (t * SIZE_OF_PAGE + SIZE_OF_PAGE) f)
  = length f.
Proof.
  intros H L. rewrite !length_app, length_firstn, length_skipn, L. lia.
Qed.

Lemma block_in_place_same (f : list Z) (t : nat) (bs : list Z) :
  ((t + 1) * SIZE_OF_PAGE <= length f)%nat -> length bs = SIZE_OF_PAGE ->
  block t (firstn (t * SIZE_OF_PAGE) f ++ bs ++ skipn (t * SIZE_OF_PAGE + SIZE_OF_PAGE) f)
  = bs.
Proof.
  intros H L. unfold block.
  assert (Lf : length (firstn (t * SIZE_OF_PAGE) f) = (t * SIZE_OF_PAGE)%nat)
    by (rewrite length_firstn; lia).
  rewrite <- (slice_prefix (firstn (t * SIZE_OF_PAGE) f) bs
                 (skipn (t * SIZE_OF_PAGE + SIZE_OF_PAGE) f)) at 2.
  now rewrite Lf, L.
Qed.

Lemma block_in_place_other (f : list Z) (t u : nat) (bs : list Z) :
  ((t + 1) * SIZE_OF_PAGE <= length f)%nat -> length bs = SIZE_OF_PAGE -> u <> t ->
  block u (firstn (t * SIZE_OF_PAGE) f ++ bs ++ skipn (t * SIZE_OF_PAGE + SIZE_OF_PAGE) f)
  = block u f.
Proof.
  intros H L Hne. unfold block. rewrite size_of_page in *.
  assert (Lf : length (firstn (t * 209) f) = (t * 209)%nat) by (rewrite length_firstn; lia).
  destruct (Nat.lt_ge_cases u t) as [Hu|Hu].
  - rewrite slice_app_l by lia. apply slice_firstn. nia.
  - rewrite slice_app_r by lia. rewrite slice_app_r by lia.
    rewrite slice_skipn. f_equal. rewrite Lf, L. nia.
Qed.

Lemma block_append_old (f bs : list Z) (u : nat) :
  ((u + 1) * SIZE_OF_PAGE <= length f)%nat -> block u (f ++ bs) = block u f.
Proof. intro H. unfold block. apply slice_app_l. lia. Qed.

Lemma block_append_new (f bs : list Z) (n : nat) :
  length f = (n * SIZE_OF_PAGE)%nat -> length bs = SIZE_OF_PAGE ->
  block n (f ++ bs) = bs.
Proof.
  intros Lf L. unfold block. rewrite <- (app_nil_r bs) at 1.
  rewrite <- (slice_prefix f bs []) at 2. now rewrite Lf, L.
Qed.


(** ** The state monad *)

Lemma bind_ret_l {A B} (m : M A) (k : A -> M B) s s' a :
  m s = (s', Ret a) -> bind m k s = k a s'.
Proof. intro H. unfold bind. now rewrite H. Qed.

Lemma bind_exc_l {A B} (m : M A) (k : A -> M B) s s' e :
  m s = (s', Exc e) -> bind m k s = (s', Exc e).
Proof. intro H. unfold bind. now rewrite H. Qed.

Lemma num_pages_aligned (f : list Z) (n : nat) :
  length f = (n * SIZE_OF_PAGE)%nat -> num_pages f = Z.of_nat n.
Proof.
  intro L. unfold num_pages. rewrite L, Nat2Z.inj_mul.
  apply Z.div_mul. rewrite size_of_page. lia.
Qed.

Lemma page_pack_length (p : page) (bs : list Z) :
  page_pack p = Ret bs -> (length p.(records) <= BLOCK_FACTOR)%nat ->
  length bs = SIZE_OF_PAGE.
Proof.
  intros H B. destruct (page_pack_spec _ _ H) as [L _]. rewrite L.
  unfold SIZE_OF_PAGE, SIZE_HEADER, BLOCK_FACTOR, SIZE_OF_RECORD in *. nia.
Qed.

Lemma d_write_page_ok (s : state) (t : nat) (p : page) (bs : list Z) :
  ((t + 1) * SIZE_OF_PAGE <= length s.(data))%nat ->
  page_pack p = Ret bs -> (length p.(records) <= BLOCK_FACTOR)%nat ->
  d_write_page (Z.of_nat t) p s
  = (mkState (overwrite_page t bs s.(data)) s.(index), Ret tt).
Proof.
  intros H P B. unfold d_write_page.
  replace (Z.of_nat t * Z.of_nat SIZE_OF_PAGE <? 0) with false
    by (symmetry; apply Z.ltb_ge; lia).
  rewrite P, <- Nat2Z.inj_mul, write_at_in_place; auto.
  eapply page_pack_length; eauto.
Qed.

Lemma d_write_page_exc (s : state) (pno : Z) (p : page) (e : exn) :
  0 <= pno -> page_pack p = Exc e -> d_write_page pno p s = (s, Exc e).
Proof.
  intros H P. unfold d_write_page.
  replace (pno * Z.of_nat SIZE_OF_PAGE <? 0) with false
    by (symmetry; apply Z.ltb_ge; lia).
  now rewrite P.
Qed.

Lemma d_append_page_ok (s : state) (n : nat) (p : page) (bs : list Z) :
  length s.(data) = (n * SIZE_OF_PAGE)%nat ->
  page_pack p = Ret bs ->
  d_append_page p s = (mkState (s.(data) ++ bs) s.(index), Ret (Z.of_nat n)).
Proof.
  intros L P. unfold d_append_page.
  rewrite (bind_ret_l _ _ s s (Z.of_nat n))
    by (unfold d_num_pages; now rewrite (num_pages_aligned _ _ L)).
  rewrite (bind_ret_l _ _ s (mkState (s.(data) ++ bs) s.(index)) tt); [reflexivity|].
  unfold d_write_page.
  replace (Z.of_nat n * Z.of_nat SIZE_OF_PAGE <? 0) with false
    by (symmetry; apply Z.ltb_ge; lia).
  rewrite P, <- Nat2Z.inj_mul, <- L, write_at_end. reflexivity.
Qed.

Lemma d_append_page_exc (s : state) (p : page) (e : exn) :
  page_pack p = Exc e -> d_append_page p s = (s, Exc e).
Proof.
  intros P. unfold d_append_page.
  rewrite (bind_ret_l _ _ s s (num_pages s.(data))) by reflexivity.
  apply (bind_exc_l _ _ _ _ e). apply d_write_page_exc; auto.
  unfold num_pages. apply Z.div_pos; [lia | rewrite size_of_page; lia].
Qed.

Lemma build_pages_data (disk : list Z) (pnos : list Z) (s : state) :
  (fst (build_pages disk pnos s)).(data) = s.(data).
Proof.
  revert s; induction pnos as [|p ps IH]; intro s; [reflexivity|].
  cbn [build_pages]. unfold bind at 1, lift.
  destruct (if p =? 0 then read_page disk 0 else Exc TypeError) as [pg|e]; [|reflexivity].
  unfold bind at 1. destruct (records pg) as [|r rs].
  - unfold ret. apply IH.
  - unfold bind at 1, lift. destruct (pack_ii (id r) p) as [e|ex]; [|reflexivity].
    unfold ix_append. rewrite IH. reflexivity.
Qed.

Lemma build_data (disk : list Z) (s : state) : (fst (build disk s)).(data) = s.(data).
Proof.
  unfold build, bind at 1, set_index. rewrite build_pages_data. reflexivity.
Qed.

Lemma insert_finish_data (disk f : list Z) (ix : option (list Z)) :
  (fst (insert_finish disk f ix)).(data) = f.
Proof.
  unfold insert_finish. destruct (index_missing ix); [|reflexivity].
  now rewrite build_data.
Qed.

Lemma page_unpack_small (bs : list Z) (pg : page) :
  page_unpack bs = Ret pg -> (length bs <= SIZE_OF_PAGE)%nat ->
  (length pg.(records) <= BLOCK_FACTOR)%nat.
Proof.
  unfold page_unpack. destruct (Nat.eqb (length (firstn SIZE_HEADER bs)) SIZE_HEADER);
    [|discriminate].
  cbv zeta.
  destruct (unpack_records (Z.to_nat (unpack_i (firstn 4 (firstn SIZE_HEADER bs))))
              bs SIZE_HEADER) as [rs|ex] eqn:E; cbn [rbind]; [|discriminate].
  intros H Lb. apply Ret_inj in H. subst pg. cbn [records].
  apply unpack_records_spec in E as [Lr [E|E]]; rewrite Lr;
    unfold SIZE_OF_PAGE, BLOCK_FACTOR, SIZE_HEADER, SIZE_OF_RECORD in *; lia.
Qed.

Lemma read_page_small (f : list Z) (t : Z) (pg : page) :
  read_page f t = Ret pg -> (length pg.(records) <= BLOCK_FACTOR)%nat.
Proof.
  unfold read_page, read_at. destruct (t * Z.of_nat SIZE_OF_PAGE <? 0); [discriminate|].
  cbn [rbind]. intro H. apply (page_unpack_small _ _ H).
  rewrite length_firstn. lia.
Qed.

Lemma list_insert_length {A} (pos : nat) (x : A) (l : list A) :
  length (list_insert pos x l) = S (length l).
Proof.
  unfold list_insert. rewrite length_app. cbn [length].
  rewrite <- (firstn_skipn pos l) at 3. rewrite length_app. lia.
Qed.

Lemma insert_sorted_length (p : page) (rec : record) :
  length (insert_into_page_sorted p rec).(records) = S (length p.(records)).
Proof. apply list_insert_length. Qed.

(** The last page write of [insert], with the data file as it was just
    before it. *)
Lemma snap_write_ok (t : Z) (p : page) (s s' : state) :
  d_write_page t p s = (s', Ret tt) ->
  (s0 <- get_state ;; d_write_page t p ;;; ret s0.(data)) s = (s', Ret s.(data)).
Proof. intro H. unfold bind at 1, get_state. unfold bind. now rewrite H. Qed.

Lemma snap_write_exc (t : Z) (p : page) (s s' : state) (e : exn) :
  d_write_page t p s = (s', Exc e) ->
  (s0 <- get_state ;; d_write_page t p ;;; ret s0.(data)) s = (s', Exc e).
Proof. intro H. unfold bind at 1, get_state. unfold bind. now rewrite H. Qed.

(** ** One call of [insert] on a store of [n > 0] pages *)

Lemma insert_run (rec : record) (s : state) (n : nat) :
  length s.(data) = (n * SIZE_OF_PAGE)%nat -> (0 < n)%nat ->
  (exists e, insert rec s = (s, Exc e))
  \/ exists es t pg,
       load_all s.(index) = Ret es /\ page_for_key es rec.(id) = Z.of_nat t /\ (t < n)%nat
       /\ read_page s.(data) (Z.of_nat t) = Ret pg
       /\ let cur := insert_into_page_sorted pg rec in
          let mid := Nat.div (length cur.(records) + 1) 2 in
          ((length cur.(records) <= BLOCK_FACTOR)%nat
           /\ exists bs, page_pack cur = Ret bs
               /\ insert rec s = insert_finish s.(data) (overwrite_page t bs s.(data)) s.(index))
          \/ ((BLOCK_FACTOR < length cur.(records))%nat
           /\ exists bh,
                page_pack (mkPage (skipn mid cur.(records)) cur.(next_page)) = Ret bh
             /\ ((exists e,
                    page_pack (mkPage (firstn mid cur.(records)) (Z.of_nat n)) = Exc e
                    /\ insert rec s = (mkState (s.(data) ++ bh) s.(index), Exc e))
                 \/ exists bl,
                    page_pack (mkPage (firstn mid cur.(records)) (Z.of_nat n)) = Ret bl
                    /\ insert rec s
                       = insert_finish (s.(data) ++ bh) (overwrite_page t bl (s.(data) ++ bh))
                                       s.(index))).
Proof.
  intros L Hn.
  assert (NP : num_pages s.(data) = Z.of_nat n) by (apply num_pages_aligned; auto).
  unfold insert.
  destruct (load_all (index s)) as [es|e] eqn:Hes.
  2: { left. exists e. apply bind_exc_l. unfold find_page_for_key. now rewrite Hes. }
  rewrite (bind_ret_l _ _ s s (page_for_key es (id rec)))
    by (unfold find_page_for_key; now rewrite Hes).
  cbv beta.
  rewrite (bind_ret_l _ _ s s (Z.of_nat n)) by (unfold d_num_pages; now rewrite NP).
  cbv beta.
  replace (Z.of_nat n =? 0) with false by (symmetry; apply Z.eqb_neq; lia).
  destruct (read_page (data s) (page_for_key es (id rec))) as [pg|e] eqn:Hpg.
  2: { left. exists e. apply bind_exc_l. unfold d_read_page. now rewrite Hpg. }
  rewrite (bind_ret_l _ _ s s pg) by (unfold d_read_page; now rewrite Hpg).
  cbv beta zeta.
  destruct (read_page_range _ _ _ Hpg) as [T0 TB].
  set (t := Z.to_nat (page_for_key es (id rec))) in *.
  assert (Et : page_for_key es (id rec) = Z.of_nat t) by (unfold t; lia).
  assert (tn : (t < n)%nat)
    by (rewrite L, size_of_page in TB; unfold SIZE_HEADER in TB; nia).
  rewrite Et in *.
  assert (Bpg := read_page_small _ _ _ Hpg).
  set (cur := insert_into_page_sorted pg rec) in *.
  assert (Lc : length (records cur) = S (length (records pg)))
    by apply insert_sorted_length.
  destruct (Nat.leb_spec (length (records cur)) BLOCK_FACTOR) as [B|B].
  - destruct (page_pack cur) as [bs|e] eqn:P.
    + right. exists es, t, pg. repeat split; auto. left. split; auto.
      exists bs. split; auto.
      rewrite (bind_ret_l _ _ s (mkState (overwrite_page t bs (data s)) (index s)) (data s))
        by (apply snap_write_ok; apply d_write_page_ok; auto; rewrite L; nia).
      unfold bind, get_state, insert_finish. cbn [index].
      destruct (index_missing (index s)); reflexivity.
    + left. exists e. apply bind_exc_l. apply snap_write_exc.
      apply d_write_page_exc; auto; lia.
  - assert (Lc4 : length (records cur) = 4%nat)
      by (unfold BLOCK_FACTOR in *; lia).
    assert (Bl : (length (firstn 2 (records cur)) <= BLOCK_FACTOR)%nat)
      by (rewrite length_firstn; unfold BLOCK_FACTOR; lia).
    destruct (page_pack (mkPage (skipn 2 (records cur)) (next_page cur)))
      as [bh|e] eqn:Ph.
    + assert (Lh : length bh = SIZE_OF_PAGE).
      { apply (page_pack_length _ _ Ph). cbn [records].
        rewrite length_skipn. unfold BLOCK_FACTOR. lia. }
      assert (A : d_append_page (mkPage (skipn 2 (records cur)) (next_page cur)) s
                  = (mkState (data s ++ bh) (index s), Ret (Z.of_nat n)))
        by (apply d_append_page_ok; auto).
      right. exists es, t, pg.
      do 4 (split; [auto|]). cbv zeta. fold cur. right. rewrite Lc4.
      change (Nat.div (4 + 1) 2) with 2%nat. split; [unfold BLOCK_FACTOR; lia|].
      exists bh. split; [exact Ph|].
      change (Nat.div (4 + 1) 2) with 2%nat.
      destruct (page_pack (mkPage (firstn 2 (records cur)) (Z.of_nat n))) as [bl|e] eqn:Pl.
      * right. exists bl. split; [reflexivity|].
        rewrite (bind_ret_l _ _ s (mkState (overwrite_page t bl (data s ++ bh)) (index s))
                   (data s ++ bh)).
        { unfold bind at 1, get_state, insert_finish. cbn [index].
          destruct (index_missing (index s)); reflexivity. }
        rewrite (bind_ret_l _ _ s _ _ A). apply snap_write_ok.
        apply (d_write_page_ok (mkState (data s ++ bh) (index s))); auto.
        cbn [data]. rewrite length_app, L, Lh. nia.
      * left. exists e. split; [reflexivity|].
        apply bind_exc_l. rewrite (bind_ret_l _ _ s _ _ A). apply snap_write_exc.
        apply d_write_page_exc; auto.
    + left. exists e. apply bind_exc_l. cbv zeta. fold cur. rewrite Lc4.
      change (Nat.div (4 + 1) 2) with 2%nat.
      apply bind_exc_l. apply d_append_page_exc; auto.
Qed.

Lemma overwrite_page_length (t : nat) (bs f : list Z) :
  ((t + 1) * SIZE_OF_PAGE <= length f)%nat -> length bs = SIZE_OF_PAGE ->
  length (overwrite_page t bs f) = length f.
Proof. apply length_in_place. Qed.

Lemma overwrite_page_other (t u : nat) (bs f : list Z) :
  ((t + 1) * SIZE_OF_PAGE <= length f)%nat -> length bs = SIZE_OF_PAGE -> u <> t ->
  block u (overwrite_page t bs f) = block u f.
Proof. apply block_in_place_other. Qed.

Lemma overwrite_page_same (t : nat) (bs f : list Z) :
  ((t + 1) * SIZE_OF_PAGE <= length f)%nat -> length bs = SIZE_OF_PAGE ->
  block t (overwrite_page t bs f) = bs.
Proof. apply block_in_place_same. Qed.

(** C10: one insert on a store of [n > 0] pages, whatever its outcome,
    leaves every page but one, [t], byte for byte as it was, and the file
    either keeps its length or grows by exactly one page. *)
Theorem C10_insert_frame (rec : record) (s : state) (n : nat) :
  length s.(data) = (n * SIZE_OF_PAGE)%nat -> (0 < n)%nat ->
  exists t, (t < n)%nat
    /\ (forall u, (u < n)%nat -> u <> t ->
          block u (fst (insert rec s)).(data) = block u s.(data))
    /\ (length (fst (insert rec s)).(data) = length s.(data)
        \/ length (fst (insert rec s)).(data) = (length s.(data) + SIZE_OF_PAGE)%nat).
Proof.
  intros L Hn.
  destruct (insert_run rec s n L Hn)
    as [[e E] | (es & t & pg & _ & _ & tn & Hpg & [[B (bs & P & E)] | [B (bh & Ph & Hl)]])].
  - exists 0%nat. rewrite E. cbn [fst]. auto.
  - exists t. rewrite E, insert_finish_data.
    assert (Lb := page_pack_length _ _ P B).
    assert (Ht : ((t + 1) * SIZE_OF_PAGE <= length (data s))%nat) by (rewrite L; nia).
    split; [exact tn|]. split.
    + intros u _ Hu. now apply overwrite_page_other.
    + left. now apply overwrite_page_length.
  - exists t. split; [exact tn|].
    assert (Bpg := read_page_small _ _ _ Hpg).
    assert (L4 : length (records (insert_into_page_sorted pg rec)) = 4%nat)
      by (rewrite insert_sorted_length in *; unfold BLOCK_FACTOR in *; lia).
    rewrite L4 in Ph, Hl. change (Nat.div (4 + 1) 2) with 2%nat in Ph, Hl.
    assert (Lh : length bh = SIZE_OF_PAGE).
    { apply (page_pack_length _ _ Ph). cbn [records]. rewrite length_skipn, L4.
      unfold BLOCK_FACTOR. lia. }
    assert (Ht : ((t + 1) * SIZE_OF_PAGE <= length (data s ++ bh))%nat)
      by (rewrite length_app, L; nia).
    assert (Old : forall u, (u < n)%nat -> block u (data s ++ bh) = block u (data s))
      by (intros u Hu; apply block_append_old; rewrite L; nia).
    destruct Hl as [(e & Pl & E) | (bl & Pl & E)]; rewrite E.
    + cbn [fst data]. split; [auto|]. right. now rewrite length_app, Lh.
    + rewrite insert_finish_data.
      assert (Bl : (length (firstn 2 (records (insert_into_page_sorted pg rec)))
                    <= BLOCK_FACTOR)%nat)
        by (rewrite length_firstn, L4; unfold BLOCK_FACTOR; lia).
      assert (Lb := page_pack_length _ _ Pl Bl).
      split.
      * intros u Hu Hut. rewrite overwrite_page_other; auto.
      * right. rewrite overwrite_page_length; auto. now rewrite length_app, Lh.
Qed.

Lemma map_list_insert {A B} (g : A -> B) (pos : nat) (x : A) (l : list A) :
  map g (list_insert pos x l) = list_insert pos (g x) (map g l).
Proof. unfold list_insert. now rewrite map_app, firstn_map, skipn_map. Qed.

Lemma page_ids_block (f : list Z) (u : nat) (p : page) (bs : list Z) :
  page_pack p = Ret bs -> block u f = bs ->
  page_ids f (Z.of_nat u) = Ret (map id p.(records), p.(next_page)).
Proof.
  intros P B. unfold page_ids. rewrite read_page_block, B.
  destruct (page_pack_spec _ _ P) as [_ (p' & U & I & N)]. rewrite U. cbn [rbind].
  now rewrite I, N.
Qed.

Lemma page_ids_same (f : list Z) (u : nat) (pno : Z) :
  pno = Z.of_nat u -> page_ids f pno = rbind (page_unpack (block u f))
                                   (fun pg => Ret (map id pg.(records), pg.(next_page))).
Proof. intros ->. unfold page_ids. now rewrite read_page_block. Qed.

Lemma find_page_for_key_state (key : Z) (s : state) :
  fst (find_page_for_key key s) = s.
Proof. reflexivity. Qed.

Lemma find_page_load (key t : Z) (s : state) :
  snd (find_page_for_key key s) = Ret t ->
  exists es, load_all s.(index) = Ret es /\ page_for_key es key = t.
Proof.
  unfold find_page_for_key. cbn [snd].
  destruct (load_all (index s)) as [es|e]; cbn [rbind]; [|discriminate].
  intro H. apply Ret_inj in H. eauto.
Qed.

Lemma insert_finish_ok (disk f : list Z) (ix : option (list Z)) :
  index_missing ix = false -> insert_finish disk f ix = (mkState f ix, Ret tt).
Proof. unfold insert_finish. now intros ->. Qed.

Lemma build_pages_later (disk : list Z) (p : Z) (ps : list Z) (s : state) :
  p <> 0 -> build_pages disk (p :: ps) s = (s, Exc TypeError).
Proof.
  intro Hp. cbn [build_pages]. unfold bind at 1, lift.
  replace (p =? 0) with false by (symmetry; now apply Z.eqb_neq). reflexivity.
Qed.

Lemma build_pages_tail (disk : list Z) (m : nat) (s : state) :
  build_pages disk (map Z.of_nat (seq 1 m)) s
  = (s, if Nat.eqb m 0 then Ret tt else Exc TypeError).
Proof.
  destruct m as [|m]; [reflexivity|].
  cbn [seq map]. apply build_pages_later. lia.
Qed.

(** [IndexFile.build] in closed form: the entry of page 0, if it has
    records, then [TypeError] as soon as there is a page 1. *)
Lemma build_eq (disk : list Z) (s : state) :
  build disk s =
  let s0 := mkState s.(data) (Some []) in
  let m := Nat.div (length disk) SIZE_OF_PAGE in
  if Nat.eqb m 0 then (s0, Ret tt) else
  let last := if Nat.eqb m 1 then Ret tt else Exc TypeError in
  match read_page disk 0 with
  | Exc e => (s0, Exc e)
  | Ret pg =>
    match pg.(records) with
    | [] => (s0, last)
    | r :: _ =>
      match pack_ii r.(id) 0 with
      | Exc e => (s0, Exc e)
      | Ret b => (mkState s.(data) (Some b), last)
      end
    end
  end.
Proof.
  unfold build. unfold bind at 1, set_index. cbv zeta.
  destruct (Nat.div (length disk) SIZE_OF_PAGE) as [|m]; [reflexivity|].
  change (seq 0 (S m)) with (0%nat :: seq 1 m). cbn [map build_pages Nat.eqb].
  unfold bind at 1, lift. change (Z.of_nat 0 =? 0) with true. cbv iota.
  destruct (read_page disk 0) as [pg|e]; [|reflexivity].
  unfold bind at 1. destruct (records pg) as [|r rs].
  - unfold ret. rewrite build_pages_tail. destruct m; reflexivity.
  - unfold bind at 1, lift. change (Z.of_nat 0) with 0.
    destruct (pack_ii (id r) 0) as [b|e]; [|reflexivity].
    unfold ix_append. cbn [data index]. rewrite build_pages_tail. destruct m; reflexivity.
Qed.






(** C3 (amended): an insert into a store of [n > 0] pages that returns
    normally applies the sorted insert to the page [t] that
    [find_page_for_key] returns, without walking [t]'s chain: page [t]
    then holds its former ids with the new id at its [bisect_left]
    position (the lower [mid] of them when they no longer fit), and every
    other existing page, the later pages of [t]'s chain among them, keeps
    its bytes. *)
Theorem C3_insert_into_found_page (rec : record) (s : state) (n : nat) (t : Z) :
  length s.(data) = (n * SIZE_OF_PAGE)%nat -> (0 < n)%nat ->
  snd (find_page_for_key rec.(id) s) = Ret t ->
  snd (insert rec s) = Ret tt ->
  exists u pg, t = Z.of_nat u /\ (u < n)%nat /\ read_page s.(data) t = Ret pg
    /\ let ks := list_insert (bisect_left (map id pg.(records)) rec.(id)) rec.(id)
                             (map id pg.(records)) in
       (forall v, (v < n)%nat -> v <> u ->
          block v (fst (insert rec s)).(data) = block v s.(data))
       /\ ((length ks <= BLOCK_FACTOR)%nat ->
           page_ids (fst (insert rec s)).(data) t = Ret (ks, pg.(next_page)))
       /\ ((BLOCK_FACTOR < length ks)%nat ->
           page_ids (fst (insert rec s)).(data) t
           = Ret (firstn (Nat.div (length ks + 1) 2) ks, Z.of_nat n)).
Proof.
  intros L Hn Ht Hok.
  destruct (find_page_load _ _ _ Ht) as (es & Hes & Et).
  destruct (insert_run rec s n L Hn)
    as [[e E] | (es' & u & pg & Hes' & Eu & un & Hpg & Hb)];
    [rewrite E in Hok; discriminate|].
  rewrite Hes in Hes'. apply Ret_inj in Hes'. subst es'.
  assert (Tu : t = Z.of_nat u) by congruence. clear Et Eu. subst t.
  exists u, pg. do 3 (split; [auto|]).
  assert (Bpg := read_page_small _ _ _ Hpg).
  assert (Ids : map id (records (insert_into_page_sorted pg rec))
                = list_insert (bisect_left (map id pg.(records)) rec.(id)) rec.(id)
                              (map id pg.(records)))
    by (unfold insert_into_page_sorted; cbn [records]; apply map_list_insert).
  cbv zeta. rewrite <- Ids, length_map.
  destruct Hb as [[B (bs & P & E)] | [B (bh & Ph & Hl)]].
  - rewrite E, insert_finish_data.
    assert (Lb := page_pack_length _ _ P B).
    assert (Hu : ((u + 1) * SIZE_OF_PAGE <= length (data s))%nat) by (rewrite L; nia).
    split; [|split].
    + intros v _ Hv. now apply overwrite_page_other.
    + intros _. erewrite page_ids_block; [| exact P | now apply overwrite_page_same].
      reflexivity.
    + intro B'. lia.
  - assert (L4 : length (records (insert_into_page_sorted pg rec)) = 4%nat)
      by (rewrite insert_sorted_length in *; unfold BLOCK_FACTOR in *; lia).
    rewrite L4 in Ph, Hl |- *. change (Nat.div (4 + 1) 2) with 2%nat in Ph, Hl |- *.
    destruct Hl as [(e & Pl & E) | (bl & Pl & E)]; [rewrite E in Hok; discriminate|].
    rewrite E, insert_finish_data.
    assert (Lh : length bh = SIZE_OF_PAGE).
    { apply (page_pack_length _ _ Ph). cbn [records]. rewrite length_skipn, L4.
      unfold BLOCK_FACTOR. lia. }
    assert (Bl : (length (firstn 2 (records (insert_into_page_sorted pg rec)))
                  <= BLOCK_FACTOR)%nat)
      by (rewrite length_firstn, L4; unfold BLOCK_FACTOR; lia).
    assert (Lb := page_pack_length _ _ Pl Bl).
    assert (Hu : ((u + 1) * SIZE_OF_PAGE <= length (data s ++ bh))%nat)
      by (rewrite length_app, L; nia).
    split; [|split].
    + intros v Hv Hvu. rewrite overwrite_page_other; auto.
      apply block_append_old. rewrite L; nia.
    + intro B'. unfold BLOCK_FACTOR in B'. lia.
    + intros _. erewrite page_ids_block; [| exact Pl | now apply overwrite_page_same].
      cbn [records next_page]. now rewrite firstn_map.
Qed.

(** ** Records that survive the codec unchanged *)

Lemma pack_ii_in_range (a b : Z) :
  - 2 ^ 31 <= a < 2 ^ 31 -> - 2 ^ 31 <= b < 2 ^ 31 ->
  pack_ii a b = Ret (le_bytes 4 a ++ le_bytes 4 b).
Proof.
  intros Ha Hb. unfold pack_ii. rewrite (pack_i_in_range a Ha). cbn [rbind].
  rewrite (pack_i_in_range b Hb). reflexivity.
Qed.

Lemma rec_k_pack (k : Z) :
  - 2 ^ 31 <= k < 2 ^ 31 ->
  record_pack (rec_k k)
  = Ret (le_bytes 4 k ++ pack_s 40 (ljust 40 [65]) ++ le_bytes 4 1 ++ pack_f (py_float 1)
                      ++ pack_s 15 (ljust 15 [50; 48; 50; 52])).
Proof.
  intro Hk. unfold record_pack.
  change (utf8_encode (nombre (rec_k k))) with (Ret (A := list Z) [65]). cbn [rbind].
  change (utf8_encode (fecha (rec_k k))) with (Ret (A := list Z) [50; 48; 50; 52]).
  cbn [rbind]. change (id (rec_k k)) with k. rewrite (pack_i_in_range k Hk).
  cbn [rbind]. reflexivity.
Qed.

Lemma rec_k_unpack (k : Z) :
  - 2 ^ 31 <= k < 2 ^ 31 ->
  record_unpack (le_bytes 4 k ++ pack_s 40 (ljust 40 [65]) ++ le_bytes 4 1
                   ++ pack_f (py_float 1) ++ pack_s 15 (ljust 15 [50; 48; 50; 52]))
  = Ret (rec_k k).
Proof.
  intro Hk. set (T := pack_s 40 (ljust 40 [65]) ++ le_bytes 4 1
                      ++ pack_f (py_float 1) ++ pack_s 15 (ljust 15 [50; 48; 50; 52])).
  assert (LT : length T = 63%nat) by reflexivity.
  assert (Lk := le_bytes_length 4 k).
  unfold record_unpack. rewrite length_app, Lk, LT. cbn [Nat.eqb SIZE_OF_RECORD].
  rewrite slice_app_l by lia. rewrite !slice_app_r by lia. rewrite Lk.
  unfold slice at 1. rewrite skipn_O, firstn_all2 by lia.
  rewrite unpack_i_le_bytes by exact Hk.
  change (Nat.sub 4 4) with 0%nat. change (Nat.sub 44 4) with 40%nat.
  change (Nat.sub 48 4) with 44%nat. change (Nat.sub 52 4) with 48%nat.
  unfold rec_k. f_equal. unfold T. f_equal; vm_compute; reflexivity.
Qed.

(** The records of a list [rs], each packed and unpacked back to itself. *)
Lemma pack_records_stable (rs : list record) :
  Forall (fun r => exists b, record_pack r = Ret b /\ record_unpack b = Ret r) rs ->
  exists bs, pack_records rs = Ret bs
    /\ forall pre post, unpack_records (length rs) (pre ++ bs ++ post) (length pre) = Ret rs.
Proof.
  induction 1 as [|r rs (b & P & U) _ (bs & Ps & Us)].
  - exists []. split; [reflexivity|]. intros. reflexivity.
  - exists (b ++ bs). cbn [pack_records]. rewrite P. cbn [rbind]. rewrite Ps.
    split; [reflexivity|]. intros pre post. cbn [unpack_records length].
    destruct (record_pack_spec _ _ P) as (Lb & _).
    rewrite <- Lb, <- app_assoc, slice_prefix, U. cbn [rbind].
    replace (length pre + length b)%nat with (length (pre ++ b)) by apply length_app.
    rewrite app_assoc, Us. reflexivity.
Qed.

Lemma page_roundtrip (rs : list record) (nx : Z) :
  Forall (fun r => exists b, record_pack r = Ret b /\ record_unpack b = Ret r) rs ->
  (length rs <= BLOCK_FACTOR)%nat -> - 2 ^ 31 <= nx < 2 ^ 31 ->
  exists bs, page_pack (mkPage rs nx) = Ret bs /\ page_unpack bs = Ret (mkPage rs nx).
Proof.
  intros F B Hn. destruct (pack_records_stable rs F) as (recs & P & U).
  assert (Hl : - 2 ^ 31 <= Z.of_nat (length rs) < 2 ^ 31)
    by (unfold BLOCK_FACTOR in B; lia).
  unfold page_pack. cbn [records next_page].
  rewrite (pack_ii_in_range _ _ Hl Hn). cbn [rbind]. rewrite P. cbn [rbind].
  eexists; split; [reflexivity|].
  unfold page_pack, page_unpack.
  assert (L8 : length (le_bytes 4 (Z.of_nat (length rs)) ++ le_bytes 4 nx) = SIZE_HEADER)
    by (rewrite length_app, !le_bytes_length; reflexivity).
  rewrite <- L8. rewrite firstn_app_exact, Nat.eqb_refl. cbv zeta.
  pose proof (firstn_app_exact (le_bytes 4 (Z.of_nat (length rs))) (le_bytes 4 nx)) as F4.
  pose proof (skipn_app_exact (le_bytes 4 (Z.of_nat (length rs))) (le_bytes 4 nx)) as S4.
  rewrite le_bytes_length in F4, S4. rewrite F4, S4.
  rewrite !unpack_i_le_bytes by assumption. rewrite Nat2Z.id, U. reflexivity.
Qed.

Lemma rec_k_stable (k : Z) :
  - 2 ^ 31 <= k < 2 ^ 31 ->
  exists b, record_pack (rec_k k) = Ret b /\ record_unpack b = Ret (rec_k k).
Proof. intro Hk. eexists. split; [apply rec_k_pack | apply rec_k_unpack]; exact Hk. Qed.



(** ** Forward runs of [insert] *)



Lemma insert_empty_store (rec : record) (b e : list Z) :
  page_pack (mkPage [rec] (-1)) = Ret b -> pack_ii rec.(id) 0 = Ret e ->
  insert rec empty_store = (mkState b (Some e), Ret tt).
Proof.
  intros P E. unfold insert.
  rewrite (bind_ret_l _ _ empty_store empty_store 0) by reflexivity. cbv beta.
  rewrite (bind_ret_l _ _ empty_store empty_store 0) by reflexivity. cbv beta.
  rewrite Z.eqb_refl.
  rewrite (bind_ret_l _ _ empty_store (mkState b None) 0)
    by (apply (d_append_page_ok empty_store 0%nat); [reflexivity | exact P]).
  rewrite (bind_ret_l _ _ (mkState b None) (mkState b (Some [])) tt) by reflexivity.
  rewrite (bind_ret_l _ _ (mkState b (Some [])) (mkState b (Some [])) e)
    by (unfold lift; now rewrite E).
  reflexivity.
Qed.

Lemma load_entries_step (fuel : nat) (bs : list Z) :
  bs <> [] -> length (firstn 8 bs) = 8%nat ->
  load_entries (S fuel) bs
  = rbind (load_entries fuel (skipn 8 bs))
      (fun es => Ret ((unpack_i (firstn 4 (firstn 8 bs)),
                       unpack_i (skipn 4 (firstn 8 bs))) :: es)).
Proof.
  intros Hne L. destruct bs as [|x l]; [contradiction|].
  cbn [load_entries]. now rewrite L.
Qed.

Lemma load_all_single (k p : Z) :
  - 2 ^ 31 <= k < 2 ^ 31 -> - 2 ^ 31 <= p < 2 ^ 31 ->
  load_all (Some (le_bytes 4 k ++ le_bytes 4 p)) = Ret [(k, p)].
Proof.
  intros Hk Hp. unfold load_all.
  assert (L8 : length (le_bytes 4 k ++ le_bytes 4 p) = 8%nat)
    by (rewrite length_app, !le_bytes_length; reflexivity).
  assert (F8 : firstn 8 (le_bytes 4 k ++ le_bytes 4 p) = le_bytes 4 k ++ le_bytes 4 p)
    by (rewrite <- L8 at 1; apply firstn_all).
  assert (S8 : skipn 8 (le_bytes 4 k ++ le_bytes 4 p) = [])
    by (rewrite <- L8; apply skipn_all).
  rewrite L8, load_entries_step.
  2: { intro E. rewrite E in L8. discriminate. }
  2: now rewrite F8.
  rewrite S8, F8.
  pose proof (firstn_app_exact (le_bytes 4 k) (le_bytes 4 p)) as F4.
  pose proof (skipn_app_exact (le_bytes 4 k) (le_bytes 4 p)) as S4.
  rewrite le_bytes_length in F4, S4. rewrite F4, S4, !unpack_i_le_bytes by assumption.
  reflexivity.
Qed.

Lemma page_for_key_single (k0 p key : Z) : page_for_key [(k0, p)] key = p.
Proof. unfold page_for_key. cbn. now destruct (k0 <=? key). Qed.



Lemma block0_single (b : list Z) : length b = SIZE_OF_PAGE -> block 0 b = b.
Proof.
  intro L. unfold block. rewrite Nat.mul_0_l, <- L. apply slice_all.
Qed.



Lemma insert_all_cons (r : record) (rs : list record) (s s' : state) :
  insert r s = (s', Ret tt) -> insert_all (r :: rs) s = insert_all rs s'.
Proof. intro H. cbn [insert_all]. now rewrite (bind_ret_l _ _ s s' tt H). Qed.



(** ** The index through a sequence of inserts *)

Lemma page_pack_single_range (r : record) (b : list Z) :
  page_pack (mkPage [r] (-1)) = Ret b -> - 2 ^ 31 <= r.(id) < 2 ^ 31.
Proof.
  unfold page_pack. cbn [records next_page].
  destruct (pack_ii _ _); [|discriminate]. cbn [rbind pack_records].
  destruct (record_pack r) as [c|] eqn:P; [|discriminate].
  intros _. now destruct (record_pack_spec _ _ P) as (_ & _ & R).
Qed.

Lemma insert_empty_cases (r : record) :
  (exists e, insert r empty_store = (empty_store, Exc e))
  \/ exists b, page_pack (mkPage [r] (-1)) = Ret b
       /\ insert r empty_store
          = (mkState b (Some (le_bytes 4 r.(id) ++ le_bytes 4 0)), Ret tt).
Proof.
  destruct (page_pack (mkPage [r] (-1))) as [b|e] eqn:P.
  - right. exists b. split; [reflexivity|]. apply insert_empty_store; [exact P|].
    apply pack_ii_in_range; [eapply page_pack_single_range; eauto | lia].
  - left. exists e. unfold insert.
    rewrite (bind_ret_l _ _ empty_store empty_store 0) by reflexivity. cbv beta.
    rewrite (bind_ret_l _ _ empty_store empty_store 0) by reflexivity. cbv beta.
    rewrite Z.eqb_refl. apply bind_exc_l. now apply d_append_page_exc.
Qed.

Lemma insert_aligned_shape (r : record) (s : state) (m : nat) :
  length s.(data) = (m * SIZE_OF_PAGE)%nat -> (0 < m)%nat ->
  index_missing s.(index) = false ->
  (fst (insert r s)).(index) = s.(index)
  /\ exists m', (0 < m')%nat /\ length (fst (insert r s)).(data) = (m' * SIZE_OF_PAGE)%nat.
Proof.
  intros L Hm Hi.
  destruct (insert_run r s m L Hm)
    as [[e E] | (es & t & pg & _ & _ & tn & Hpg & [[B (bs & P & E)] | [B (bh & Ph & Hl)]])].
  - rewrite E. split; [reflexivity|]. exists m. auto.
  - rewrite E, insert_finish_ok by exact Hi. cbn [fst data index].
    split; [reflexivity|]. exists m. split; [exact Hm|].
    rewrite overwrite_page_length; auto; [rewrite L; nia|].
    eapply page_pack_length; eauto.
  - assert (Bpg := read_page_small _ _ _ Hpg).
    assert (L4 : length (records (insert_into_page_sorted pg r)) = 4%nat)
      by (rewrite insert_sorted_length in *; unfold BLOCK_FACTOR in *; lia).
    rewrite L4 in Ph, Hl. change (Nat.div (4 + 1) 2) with 2%nat in Ph, Hl.
    assert (Lh : length bh = SIZE_OF_PAGE).
    { apply (page_pack_length _ _ Ph). cbn [records]. rewrite length_skipn, L4.
      unfold BLOCK_FACTOR. lia. }
    destruct Hl as [(e & Pl & E) | (bl & Pl & E)]; rewrite E.
    + cbn [fst data index]. split; [reflexivity|]. exists (S m). split; [lia|].
      rewrite length_app, L, Lh. lia.
    + rewrite insert_finish_ok by exact Hi. cbn [fst data index].
      split; [reflexivity|]. exists (S m). split; [lia|].
      assert (Bl : (length (firstn 2 (records (insert_into_page_sorted pg r)))
                    <= BLOCK_FACTOR)%nat)
        by (rewrite length_firstn, L4; unfold BLOCK_FACTOR; lia).
      rewrite overwrite_page_length.
      * rewrite length_app, L, Lh. lia.
      * rewrite length_app, L. nia.
      * exact (page_pack_length _ _ Pl Bl).
Qed.

Lemma last_cons_ne (a : Z) (l : list Z) (d : Z) : l <> [] -> last (a :: l) d = last l d.
Proof. destruct l; [contradiction | reflexivity]. Qed.

Lemma reach_index (s : state) (ks : list Z) :
  reach s ks ->
  (s = empty_store /\ ks = [])
  \/ (ks <> [] /\ - 2 ^ 31 <= last ks 0 < 2 ^ 31
      /\ s.(index) = Some (le_bytes 4 (last ks 0) ++ le_bytes 4 0)
      /\ exists m, (0 < m)%nat /\ length s.(data) = (m * SIZE_OF_PAGE)%nat).
Proof.
  assert (Ix : forall k, index_missing (Some (le_bytes 4 k ++ le_bytes 4 0)) = false)
    by (intro k; unfold index_missing; now rewrite length_app, !le_bytes_length).
  induction 1 as [| s ks r _ IH Hok | s ks r e _ IH He].
  - left. auto.
  - right. destruct IH as [[-> ->] | (Hne & Hk & Hix & m & Hm & L)].
    + destruct (insert_empty_cases r) as [[e E] | (b & P & E)];
        [rewrite E in Hok; discriminate|].
      rewrite E. cbn [fst index data last].
      split; [discriminate|]. split; [eapply page_pack_single_range; eauto|].
      split; [reflexivity|]. exists 1%nat. split; [lia|].
      rewrite (page_pack_length _ _ P); [lia | cbn; unfold BLOCK_FACTOR; lia].
    + destruct (insert_aligned_shape r s m L Hm) as [Ei Em]; [rewrite Hix; apply Ix|].
      rewrite last_cons_ne by exact Hne.
      split; [discriminate|]. split; [exact Hk|]. split; [now rewrite Ei|]. exact Em.
  - destruct IH as [[-> ->] | (Hne & Hk & Hix & m & Hm & L)].
    + left. destruct (insert_empty_cases r) as [[e' E] | (b & P & E)];
        rewrite E in *; [auto | discriminate].
    + right. destruct (insert_aligned_shape r s m L Hm) as [Ei Em];
        [rewrite Hix; apply Ix|].
      split; [exact Hne|]. split; [exact Hk|]. split; [now rewrite Ei|]. exact Em.
Qed.

(** ** [IndexFile.build] *)

Lemma load_entries_concat (fuel : nat) (es : list (Z * Z)) :
  Forall (fun kp => - 2 ^ 31 <= fst kp < 2 ^ 31 /\ - 2 ^ 31 <= snd kp < 2 ^ 31) es ->
  (length es <= fuel)%nat ->
  load_entries fuel (concat (map (fun kp => le_bytes 4 (fst kp) ++ le_bytes 4 (snd kp)) es))
  = Ret es.
Proof.
  intro F. revert fuel.
  induction F as [|[k p] es [Hk Hp] _ IH]; intros fuel Hf.
  - destruct fuel; reflexivity.
  - destruct fuel as [|fuel]; [cbn in Hf; lia|].
    cbn [map concat fst snd].
    assert (L8 : length (le_bytes 4 k ++ le_bytes 4 p) = 8%nat)
      by (rewrite length_app, !le_bytes_length; reflexivity).
    assert (F8 : forall rest, firstn 8 ((le_bytes 4 k ++ le_bytes 4 p) ++ rest)
                              = le_bytes 4 k ++ le_bytes 4 p)
      by (intro rest; rewrite <- L8; apply firstn_app_exact).
    assert (S8 : forall rest, skipn 8 ((le_bytes 4 k ++ le_bytes 4 p) ++ rest) = rest)
      by (intro rest; rewrite <- L8; apply skipn_app_exact).
    rewrite load_entries_step.
    + rewrite S8, F8, IH by (cbn in Hf; lia). cbn [rbind].
      pose proof (firstn_app_exact (le_bytes 4 k) (le_bytes 4 p)) as F4.
      pose proof (skipn_app_exact (le_bytes 4 k) (le_bytes 4 p)) as S4.
      rewrite le_bytes_length in F4, S4. rewrite F4, S4, !unpack_i_le_bytes by assumption.
      reflexivity.
    + intro E. apply (f_equal (@length Z)) in E. rewrite length_app, L8 in E.
      cbn in E. lia.
    + now rewrite F8.
Qed.

Lemma entries_bytes_length (es : list (Z * Z)) :
  length (concat (map (fun kp => le_bytes 4 (fst kp) ++ le_bytes 4 (snd kp)) es))
  = (8 * length es)%nat.
Proof.
  induction es as [|kp es IH]; [reflexivity|].
  cbn [map concat length]. rewrite !length_app, !le_bytes_length, IH. lia.
Qed.

(** C6: in every store a fresh [ISAM] reaches through [insert] calls, the
    index holds no entry before an insert has returned normally, and from
    then on the single entry [(k0, 0)], [k0] the id of the first such
    insert.  Its one page number is page 0, the page the first insert
    creates, never a page appended by a split; so no page number repeats
    and the keys are (trivially) strictly increasing.  A rebuild by
    [IndexFile.build], from any data file and whatever its outcome, leaves
    an index of at most one entry, [(first id of page 0, 0)]: it raises
    [TypeError] before it reaches page 1. *)
Theorem C6_index_entries :
  (forall (s : state) (ks : list Z), reach s ks ->
     index_entries s = Ret (match ks with [] => [] | _ :: _ => [(last ks 0, 0)] end))
  /\ (forall (disk : list Z) (s : state),
        exists es, index_entries (fst (build disk s)) = Ret es
          /\ (es = []
              \/ exists pg r rs, read_page disk 0 = Ret pg /\ pg.(records) = r :: rs
                                /\ es = [(r.(id), 0)])).
Proof.
  split.
  - intros s ks R.
    destruct (reach_index s ks R) as [[-> ->] | (Hne & Hk & Hix & _)]; [reflexivity|].
    destruct ks as [|k ks]; [contradiction|].
    unfold index_entries. rewrite Hix. apply load_all_single; [exact Hk | lia].
  - intros disk s. rewrite build_eq. cbv zeta.
    destruct (Nat.eqb (Nat.div (length disk) SIZE_OF_PAGE) 0).
    { exists []. split; [reflexivity | now left]. }
    destruct (read_page disk 0) as [pg|e] eqn:Hpg.
    2: { exists []. split; [reflexivity | now left]. }
    destruct (records pg) as [|r rs] eqn:Er.
    { exists []. split; [reflexivity | now left]. }
    destruct (pack_ii (id r) 0) as [b|e] eqn:Pb.
    2: { exists []. split; [reflexivity | now left]. }
    exists [(r.(id), 0)]. split.
    + destruct (pack_ii_spec _ _ _ Pb) as (_ & _ & _ & Rk & _).
      rewrite pack_ii_in_range in Pb by (auto; lia). apply Ret_inj in Pb. subst b.
      unfold index_entries. cbn [fst index]. apply load_all_single; [exact Rk | lia].
    + right. exists pg, r, rs. auto.
Qed.


Ltac btrue t := replace t with true
  by (symmetry; first [apply Z.ltb_lt | apply Z.leb_le | apply Z.eqb_eq]; lia).
Ltac bfalse t := replace t with false
  by (symmetry; first [apply Z.ltb_ge | apply Z.leb_gt | apply Z.eqb_neq]; lia).
Ltac dm x d := pose proof (Z.div_mod x d ltac:(lia)); pose proof (Z.mod_pos_bound x d ltac:(lia)).

Lemma decode_1 (b : Z) (rest : list Z) :
  b < 128 -> utf8_decode (b :: rest) = b :: utf8_decode rest.
Proof. intro H. simpl. btrue (b <? 128). reflexivity. Qed.

Lemma decode_2 (b b2 : Z) (rest : list Z) :
  194 <= b <= 223 -> 128 <= b2 <= 191 ->
  utf8_decode (b :: b2 :: rest) = (b - 192) * 64 + (b2 - 128) :: utf8_decode rest.
Proof.
  intros H H2. simpl. unfold in_range.
  bfalse (b <? 128). btrue (194 <=? b). btrue (b <=? 223).
  btrue (128 <=? b2). btrue (b2 <=? 191). reflexivity.
Qed.

Lemma decode_3 (b b2 b3 : Z) (rest : list Z) :
  224 <= b <= 239 -> 128 <= b2 <= 191 -> (b = 224 -> 160 <= b2) -> (b = 237 -> b2 <= 159) ->
  128 <= b3 <= 191 ->
  utf8_decode (b :: b2 :: b3 :: rest)
  = (b - 224) * 4096 + (b2 - 128) * 64 + (b3 - 128) :: utf8_decode rest.
Proof.
  intros H H2 Hlo Hhi H3. simpl. unfold in_range.
  bfalse (b <? 128). bfalse (b <=? 223). btrue (224 <=? b). btrue (b <=? 239).
  rewrite andb_false_r. cbn [andb].
  replace ((if b =? 224 then 160 else 128) <=? b2) with true
    by (destruct (Z.eqb_spec b 224); symmetry; apply Z.leb_le; lia).
  replace (b2 <=? (if b =? 237 then 159 else 191)) with true
    by (destruct (Z.eqb_spec b 237); symmetry; apply Z.leb_le; lia).
  btrue (128 <=? b3). btrue (b3 <=? 191). reflexivity.
Qed.

Lemma decode_4 (b b2 b3 b4 : Z) (rest : list Z) :
  240 <= b <= 244 -> 128 <= b2 <= 191 -> (b = 240 -> 144 <= b2) -> (b = 244 -> b2 <= 143) ->
  128 <= b3 <= 191 -> 128 <= b4 <= 191 ->
  utf8_decode (b :: b2 :: b3 :: b4 :: rest)
  = (b - 240) * 262144 + (b2 - 128) * 4096 + (b3 - 128) * 64 + (b4 - 128)
    :: utf8_decode rest.
Proof.
  intros H H2 Hlo Hhi H3 H4. simpl. unfold in_range.
  bfalse (b <? 128). bfalse (b <=? 223). bfalse (b <=? 239). btrue (240 <=? b). btrue (b <=? 244).
  rewrite !andb_false_r. cbn [andb].
  replace ((if b =? 240 then 144 else 128) <=? b2) with true
    by (destruct (Z.eqb_spec b 240); symmetry; apply Z.leb_le; lia).
  replace (b2 <=? (if b =? 244 then 143 else 191)) with true
    by (destruct (Z.eqb_spec b 244); symmetry; apply Z.leb_le; lia).
  btrue (128 <=? b3). btrue (b3 <=? 191). btrue (128 <=? b4). btrue (b4 <=? 191). reflexivity.
Qed.

Lemma utf8_char_decode (c : Z) (b tail : list Z) :
  0 <= c <= 1114111 -> utf8_char c = Ret b ->
  utf8_decode (b ++ tail) = c :: utf8_decode tail.
Proof.
  intros Hc. unfold utf8_char.
  destruct (Z.ltb_spec c 128) as [L1|L1].
  { intro E. apply Ret_inj in E. subst b. now apply decode_1. }
  dm c 64.
  destruct (Z.ltb_spec c 2048) as [L2|L2].
  { intro E. apply Ret_inj in E. subst b. cbn [app].
    rewrite decode_2 by lia. f_equal. lia. }
  destruct ((55296 <=? c) && (c <? 57344)) eqn:Hs; [discriminate|].
  apply andb_false_iff in Hs.
  assert (Hs' : c < 55296 \/ 57344 <= c)
    by (destruct Hs as [Hs|Hs]; [apply Z.leb_gt in Hs | apply Z.ltb_ge in Hs]; lia).
  assert (D1 : c / 4096 = c / 64 / 64) by (rewrite Z.div_div by lia; reflexivity).
  dm (c / 64) 64.
  destruct (Z.ltb_spec c 65536) as [L3|L3].
  { intro E. apply Ret_inj in E. subst b. cbn [app].
    rewrite decode_3 by lia. f_equal. lia. }
  intro E. apply Ret_inj in E. subst b. cbn [app].
  assert (D2 : c / 262144 = c / 4096 / 64) by (rewrite Z.div_div by lia; reflexivity).
  dm (c / 4096) 64.
  rewrite decode_4 by lia. f_equal. lia.
Qed.

Lemma utf8_encode_decode (s bs tail : list Z) :
  Forall (fun c => 0 <= c <= 1114111) s -> utf8_encode s = Ret bs ->
  utf8_decode (bs ++ tail) = s ++ utf8_decode tail.
Proof.
  revert bs. induction s as [|c s IH]; intros bs F E.
  - cbn in E. apply Ret_inj in E. now subst bs.
  - inversion F as [|? ? Fc Fs]; subst. cbn [utf8_encode] in E.
    destruct (utf8_char c) as [b|] eqn:Ec; [|discriminate]. cbn [rbind] in E.
    destruct (utf8_encode s) as [bs'|] eqn:Es; [|discriminate]. cbn [rbind] in E.
    apply Ret_inj in E. subst bs.
    rewrite <- app_assoc, (utf8_char_decode c b) by assumption.
    rewrite (IH bs') by auto. reflexivity.
Qed.

Lemma utf8_char_length (c : Z) (b : list Z) : utf8_char c = Ret b -> (1 <= length b)%nat.
Proof.
  unfold utf8_char.
  destruct (c <? 128); [intro E; apply Ret_inj in E; subst; cbn; lia|].
  destruct (c <? 2048); [intro E; apply Ret_inj in E; subst; cbn; lia|].
  destruct ((55296 <=? c) && (c <? 57344)); [discriminate|].
  destruct (c <? 65536); intro E; apply Ret_inj in E; subst; cbn; lia.
Qed.

Lemma utf8_encode_length (s bs : list Z) :
  utf8_encode s = Ret bs -> (length s <= length bs)%nat.
Proof.
  revert bs. induction s as [|c s IH]; intros bs E; [cbn; lia|].
  cbn [utf8_encode] in E.
  destruct (utf8_char c) as [b|] eqn:Ec; [|discriminate]. cbn [rbind] in E.
  destruct (utf8_encode s) as [bs'|] eqn:Es; [|discriminate]. cbn [rbind] in E.
  apply Ret_inj in E. subst bs.
  apply utf8_char_length in Ec. specialize (IH bs' eq_refl).
  rewrite length_app. cbn. lia.
Qed.

Lemma decode_zeros (n : nat) : utf8_decode (repeat 0 n) = repeat 0 n.
Proof.
  induction n as [|n IH]; [reflexivity|].
  cbn [repeat]. rewrite decode_1 by lia. now rewrite IH.
Qed.

Lemma lstrip_by_app (p : Z -> bool) (l x : list Z) :
  Forall (fun c => p c = true) l -> lstrip_by p (l ++ x) = lstrip_by p x.
Proof.
  induction 1 as [|c l Hc _ IH]; [reflexivity|].
  cbn [app lstrip_by]. now rewrite Hc.
Qed.

Lemma rstrip_by_app (p : Z -> bool) (s l : list Z) :
  Forall (fun c => p c = true) l -> rstrip_by p (s ++ l) = rstrip_by p s.
Proof.
  intro F. unfold rstrip_by. rewrite rev_app_distr, lstrip_by_app; [reflexivity|].
  now apply Forall_rev.
Qed.

Lemma clean_text_padded (s bs : list Z) (k : nat) :
  Forall (fun c => 0 <= c <= 1114111) s -> utf8_encode s = Ret bs ->
  rstrip_nul s = s -> strip s = s ->
  clean_text (bs ++ repeat 0 k) = s.
Proof.
  intros F E N S. unfold clean_text.
  rewrite (utf8_encode_decode s bs) by assumption. rewrite decode_zeros.
  unfold rstrip_nul. rewrite rstrip_by_app.
  - fold (rstrip_nul s). now rewrite N.
  - apply Forall_forall. intros c Hc. apply repeat_spec in Hc. now subst c.
Qed.

Lemma pack_s_ljust (n : nat) (bs : list Z) :
  (length bs <= n)%nat -> pack_s n (ljust n bs) = bs ++ repeat 0 (n - length bs).
Proof.
  intro H. unfold pack_s, ljust.
  assert (L : length (bs ++ repeat 0 (n - length bs)) = n)
    by (rewrite length_app, repeat_length; lia).
  rewrite firstn_all2 by lia. rewrite L, Nat.sub_diag. apply app_nil_r.
Qed.

Lemma slice_at (a k : nat) (pre x post : list Z) :
  length pre = a -> length x = k -> slice a k (pre ++ x ++ post) = x.
Proof. intros <- <-. apply slice_prefix. Qed.

(** C7 (amended): for a record whose id and quantity fit in an int32 and
    whose name and date are [text_ok] for their widths (40 and 15 bytes),
    [Record.pack] succeeds and [Record.unpack] gives back the same id, name,
    quantity and date; the price comes back as its binary32 rounding. *)
Theorem C7_record_roundtrip (r : record) :
  - 2 ^ 31 <= r.(id) < 2 ^ 31 -> - 2 ^ 31 <= r.(cantidad) < 2 ^ 31 ->
  text_ok 40 r.(nombre) -> text_ok 15 r.(fecha) ->
  exists b, record_pack r = Ret b
  /\ record_unpack b = Ret (mkRecord r.(id) r.(nombre) r.(cantidad)
                                      (unpack_f (pack_f r.(precio))) r.(fecha)).
Proof.
  intros Hi Hc (Fn & (bn & En & Ln) & Nn & Sn) (Ff & (bf & Ef & Lf) & Nf & Sf).
  unfold record_pack. rewrite En, Ef. cbn [rbind].
  rewrite !pack_i_in_range by assumption. cbn [rbind].
  eexists. split; [reflexivity|].
  rewrite !pack_s_ljust by assumption.
  set (bi := le_bytes 4 (id r)). set (bc := le_bytes 4 (cantidad r)).
  set (pn := bn ++ repeat 0 (40 - length bn)). set (pf := pack_f (precio r)).
  set (pd := bf ++ repeat 0 (15 - length bf)).
  assert (Li : length bi = 4%nat) by apply le_bytes_length.
  assert (Lc : length bc = 4%nat) by apply le_bytes_length.
  assert (Lpf : length pf = 4%nat) by apply pack_f_length.
  assert (Lpn : length pn = 40%nat) by (unfold pn; rewrite length_app, repeat_length; lia).
  assert (Lpd : length pd = 15%nat) by (unfold pd; rewrite length_app, repeat_length; lia).
  unfold record_unpack.
  replace (length (bi ++ pn ++ bc ++ pf ++ pd)) with SIZE_OF_RECORD
    by (rewrite !length_app; rewrite Li, Lpn, Lc, Lpf, Lpd; reflexivity).
  rewrite Nat.eqb_refl.
  replace (slice 0 4 (bi ++ pn ++ bc ++ pf ++ pd)) with bi
    by (symmetry; apply (slice_at 0 4 [] bi); auto).
  replace (slice 4 40 (bi ++ pn ++ bc ++ pf ++ pd)) with pn
    by (symmetry; now apply slice_at).
  replace (bi ++ pn ++ bc ++ pf ++ pd) with ((bi ++ pn) ++ bc ++ pf ++ pd)
    by (now rewrite <- app_assoc).
  replace (slice 44 4 ((bi ++ pn) ++ bc ++ pf ++ pd)) with bc
    by (symmetry; apply slice_at; auto; rewrite length_app; lia).
  replace ((bi ++ pn) ++ bc ++ pf ++ pd) with (((bi ++ pn) ++ bc) ++ pf ++ pd)
    by (now rewrite <- app_assoc).
  replace (slice 48 4 (((bi ++ pn) ++ bc) ++ pf ++ pd)) with pf
    by (symmetry; apply slice_at; auto; rewrite !length_app; lia).
  replace (((bi ++ pn) ++ bc) ++ pf ++ pd) with ((((bi ++ pn) ++ bc) ++ pf) ++ pd ++ [])
    by (now rewrite <- !app_assoc, app_nil_r).
  replace (slice 52 15 ((((bi ++ pn) ++ bc) ++ pf) ++ pd ++ [])) with pd
    by (symmetry; apply slice_at; auto; rewrite !length_app; lia).
  unfold pn, pd.
  rewrite (clean_text_padded (nombre r) bn), (clean_text_padded (fecha r) bf) by assumption.
  unfold bi, bc. rewrite !unpack_i_le_bytes by assumption.
  unfold make_record. rewrite !firstn_all2.
  - reflexivity.
  - apply utf8_encode_length in Ef. lia.
  - apply utf8_encode_length in En. lia.
Qed.


(** C5 (code bug): on the store a fresh [ISAM(...)] starts from, no key
    has been inserted, yet [search] raises instead of reporting not-found. *)
Theorem C5_search_empty_store_raises (k : Z) :
  reach empty_store [] /\ snd (search k empty_store) = Exc StructError.
Proof. split; [constructor | vm_compute; reflexivity]. Qed.

Lemma C3_insert_into_found_page_witness :
  exists u pg, 0 = Z.of_nat u /\ (u < 2)%nat
    /\ read_page (store_of [1; 2; 3; 4]).(data) 0 = Ret pg.
Proof.
  destruct (C3_insert_into_found_page (rec_k 5) (store_of [1; 2; 3; 4]) 2%nat 0)
    as (u & pg & E & Lu & R & _);
    [vm_compute; reflexivity | lia | vm_compute; reflexivity | vm_compute; reflexivity |].
  exists u, pg. auto.
Defined.


Lemma C6_index_entries_witness :
  index_entries (fst (insert (rec_k 1) empty_store)) = Ret [(1, 0)]
  /\ exists es, index_entries (fst (build driver_state.(data) driver_state)) = Ret es.
Proof.
  split.
  - apply (proj1 C6_index_entries _ [1]).
    apply (reach_ok _ _ (rec_k 1) reach_empty). vm_compute. reflexivity.
  - destruct (proj2 C6_index_entries driver_state.(data) driver_state) as (es & E & _).
    exists es. exact E.
Defined.

Lemma C7_record_roundtrip_witness :
  exists b, record_pack (rec_k 5) = Ret b
  /\ record_unpack b = Ret (mkRecord 5 [65] 1 (unpack_f (pack_f (py_float 1)))
                                     [50; 48; 50; 52]).
Proof.
  apply (C7_record_roundtrip (rec_k 5)); [cbn; lia | cbn; lia | |];
    (split; [repeat constructor; lia
            | split; [eexists; split; [reflexivity | cbn; lia] | split; reflexivity]]).
Defined.

Lemma C9_page_unpack_count_witness :
  (exists pg, page_unpack (store_of [1; 2]).(data) = Ret pg /\ length pg.(records) = 2%nat)
  /\ page_unpack (firstn SIZE_OF_PAGE four_record_bytes) = Exc StructError.
Proof.
  split.
  - destruct (proj1 (C9_page_unpack_count (store_of [1; 2]).(data)))
      as (pg & E & L & _); [vm_compute; reflexivity | vm_compute; discriminate |].
    exists pg. split; [exact E | rewrite L; vm_compute; reflexivity].
  - apply (proj2 (C9_page_unpack_count (firstn SIZE_OF_PAGE four_record_bytes)));
      [vm_compute; lia | vm_compute; reflexivity].
Defined.

Lemma C10_insert_frame_witness :
  length driver_state.(data) = (3 * SIZE_OF_PAGE)%nat
  /\ exists t, (t < 3)%nat
    /\ (forall u, (u < 3)%nat -> u <> t ->
          block u (fst (insert (rec_k 3) driver_state)).(data) = block u driver_state.(data))
    /\ (length (fst (insert (rec_k 3) driver_state)).(data) = length driver_state.(data)
        \/ length (fst (insert (rec_k 3) driver_state)).(data)
           = (length driver_state.(data) + SIZE_OF_PAGE)%nat).
Proof.
  split; [vm_compute; reflexivity|].
  apply (C10_insert_frame (rec_k 3) driver_state 3%nat); [vm_compute; reflexivity | lia].
Defined.


(** ** [bisect_left] on a sorted list *)

Lemma sorted_nth (l : list Z) :
  Sorted Z.le l -> forall i j, (i <= j < length l)%nat -> nth i l 0 <= nth j l 0.
Proof.
  intro S. apply Sorted_StronglySorted in S; [|intros a b c; lia].
  induction S as [|a l S IH F]; intros i j H; cbn [length] in H; [lia|].
  destruct i as [|i], j as [|j]; cbn [nth]; try lia.
  - rewrite Forall_forall in F. apply F, nth_In. lia.
  - apply IH. lia.
Qed.

Lemma bisect_loop_spec (a : list Z) (x : Z) (fuel : nat) (lo hi : nat) :
  Sorted Z.le a ->
  (forall i, (i < lo)%nat -> nth i a 0 < x) ->
  (forall i, (hi <= i < length a)%nat -> x <= nth i a 0) ->
  (lo <= hi <= length a)%nat -> (hi - lo <= fuel)%nat ->
  let p := bisect_loop fuel a x lo hi in
  (forall i, (i < p)%nat -> nth i a 0 < x)
  /\ (forall i, (p <= i < length a)%nat -> x <= nth i a 0) /\ (p <= length a)%nat.
Proof.
  intros S. revert lo hi. induction fuel as [|fuel IH]; intros lo hi Hlo Hhi B F;
    cbn [bisect_loop].
  - replace hi with lo in Hhi by lia. auto with zarith.
  - destruct (Nat.ltb_spec lo hi) as [H|H]; [|replace hi with lo in Hhi by lia; auto with zarith].
    assert (Hm : (lo <= Nat.div (lo + hi) 2 < hi)%nat).
    { pose proof (Nat.div_mod_eq (lo + hi) 2).
      pose proof (Nat.mod_upper_bound (lo + hi) 2 ltac:(lia)). lia. }
    set (mid := Nat.div (lo + hi) 2) in *.
    destruct (Z.ltb_spec (nth mid a 0) x) as [Lt|Ge].
    + apply IH; auto; [|lia|lia].
      intros i Hi. destruct (Nat.ltb_spec i lo) as [Hil|Hil]; [auto|].
      pose proof (sorted_nth a S i mid ltac:(lia)). lia.
    + apply IH; auto; [|lia|lia].
      intros i Hi. pose proof (sorted_nth a S mid i ltac:(lia)). lia.
Qed.

Lemma bisect_left_spec (a : list Z) (x : Z) :
  Sorted Z.le a ->
  Forall (fun y => y < x) (firstn (bisect_left a x) a)
  /\ Forall (fun y => x <= y) (skipn (bisect_left a x) a).
Proof.
  intro S. unfold bisect_left.
  destruct (bisect_loop_spec a x (length a) 0 (length a) S) as (Lo & Up & Le);
    [intros; lia | intros; lia | lia | lia |].
  set (p := bisect_loop (length a) a x 0 (length a)) in *.
  split; apply Forall_forall; intros y Hy; apply (In_nth _ _ 0) in Hy as (i & Hi & <-).
  - rewrite length_firstn in Hi. rewrite nth_firstn.
    replace (Nat.ltb i p) with true by (symmetry; apply Nat.ltb_lt; lia). apply Lo. lia.
  - rewrite length_skipn in Hi. rewrite nth_skipn. apply Up. lia.
Qed.

Lemma ss_app (l1 l2 : list Z) :
  StronglySorted Z.le l1 -> StronglySorted Z.le l2 ->
  (forall y z, In y l1 -> In z l2 -> y <= z) -> StronglySorted Z.le (l1 ++ l2).
Proof.
  induction 1 as [|a l1 S1 IH F1]; intros S2 H; [exact S2|].
  cbn [app]. constructor.
  - apply IH; auto. intros y z Hy Hz. apply H; auto. now right.
  - apply Forall_app. split; [exact F1|].
    apply Forall_forall. intros z Hz. apply H; auto. now left.
Qed.

Lemma ss_app_inv (l1 l2 : list Z) :
  StronglySorted Z.le (l1 ++ l2) ->
  StronglySorted Z.le l1 /\ StronglySorted Z.le l2
  /\ (forall y z, In y l1 -> In z l2 -> y <= z).
Proof.
  induction l1 as [|a l1 IH]; intro S; [split; [constructor | split; [exact S | contradiction]]|].
  cbn [app] in S. inversion S as [|? ? S' F]; subst.
  destruct (IH S') as (S1 & S2 & H). apply Forall_app in F as [Fa Fb].
  split; [now constructor|]. split; [exact S2|].
  intros y z [<-|Hy] Hz; [rewrite Forall_forall in Fb; auto | auto].
Qed.

Lemma sorted_list_insert (a : list Z) (x : Z) (pos : nat) :
  Sorted Z.le a ->
  Forall (fun y => y < x) (firstn pos a) -> Forall (fun y => x <= y) (skipn pos a) ->
  Sorted Z.le (list_insert pos x a).
Proof.
  intros S Fl Fh. apply StronglySorted_Sorted.
  apply Sorted_StronglySorted in S; [|intros u v w; lia].
  rewrite <- (firstn_skipn pos a) in S. apply ss_app_inv in S as (S1 & S2 & H).
  unfold list_insert. apply ss_app; auto.
  - constructor; auto.
  - intros y z Hy [<-|Hz]; rewrite Forall_forall in Fl, Fh.
    + specialize (Fl y Hy). lia.
    + auto.
Qed.

Lemma insert_sorted_shape (p : page) (rec : record) :
  Sorted Z.le (map id p.(records)) ->
  exists pre post,
    p.(records) = pre ++ post
    /\ (insert_into_page_sorted p rec).(records) = pre ++ rec :: post
    /\ Forall (fun r => r.(id) < rec.(id)) pre
    /\ Forall (fun r => rec.(id) <= r.(id)) post
    /\ Sorted Z.le (map id (insert_into_page_sorted p rec).(records))
    /\ (insert_into_page_sorted p rec).(next_page) = p.(next_page).
Proof.
  intro S. destruct (bisect_left_spec _ rec.(id) S) as [Fl Fh].
  set (pos := bisect_left (map id p.(records)) rec.(id)) in *.
  exists (firstn pos p.(records)), (skipn pos p.(records)).
  repeat split.
  - now rewrite firstn_skipn.
  - rewrite firstn_map, Forall_map in Fl. exact Fl.
  - rewrite skipn_map, Forall_map in Fh. exact Fh.
  - unfold insert_into_page_sorted. cbn [records]. rewrite map_list_insert.
    apply sorted_list_insert; auto.
Qed.

(** ** Chains *)

Lemma page_ids_read (f : list Z) (pno : Z) (ids : list Z) (nx : Z) :
  page_ids f pno = Ret (ids, nx) ->
  exists pg, read_page f pno = Ret pg /\ map id pg.(records) = ids /\ pg.(next_page) = nx.
Proof.
  unfold page_ids. destruct (read_page f pno) as [pg|]; [|discriminate].
  cbn [rbind]. intro H. apply Ret_inj in H. inversion H. eauto.
Qed.

Lemma chain_links (f : list Z) (pno : Z) (L : list (Z * list Z)) (fuel : nat) :
  links f pno L -> (length L < fuel)%nat -> chain fuel f pno = Ret L.
Proof.
  intro H. revert fuel. induction H as [|pno nx ids L Hp Hi _ IH]; intros fuel Hf.
  - destruct fuel; [lia|]. reflexivity.
  - destruct fuel as [|fuel]; [cbn in Hf; lia|]. cbn [chain].
    replace (pno =? -1) with false by (symmetry; apply Z.eqb_neq; exact Hp).
    rewrite Hi. cbn [rbind fst snd]. rewrite IH by (cbn in Hf; lia). reflexivity.
Qed.

Lemma search_chain_links (f : list Z) (key pno : Z) (L : list (Z * list Z)) (fuel : nat) :
  links f pno L -> (length L < fuel)%nat ->
  (In key (concat (map snd L)) ->
   exists r, search_chain fuel f key pno = Ret (Found r) /\ r.(id) = key)
  /\ (~ In key (concat (map snd L)) -> search_chain fuel f key pno = Ret NotFound).
Proof.
  intro H. revert fuel. induction H as [|pno nx ids L Hp Hi _ IH]; intros fuel Hf.
  - destruct fuel; [lia|]. split; [contradiction | reflexivity].
  - destruct fuel as [|fuel]; [cbn in Hf; lia|]. cbn [search_chain].
    replace (pno =? -1) with false by (symmetry; apply Z.eqb_neq; exact Hp).
    destruct (page_ids_read _ _ _ _ Hi) as (pg & R & I & N). rewrite R. cbn [rbind].
    cbn [map snd concat]. destruct (IH fuel ltac:(cbn in Hf; lia)) as [IHin IHout].
    destruct (find (fun r => id r =? key) (records pg)) as [r|] eqn:Fd.
    + apply find_some in Fd as [Hr E]. apply Z.eqb_eq in E.
      split; [intros _; eauto|]. intro N'. exfalso. apply N'.
      apply in_or_app. left. rewrite <- I, <- E. now apply in_map.
    + rewrite N. split.
      * intro Hk. apply in_app_or in Hk as [Hk|Hk]; [|auto].
        rewrite <- I in Hk. apply in_map_iff in Hk as (r & <- & Hr).
        pose proof (find_none _ _ Fd r Hr) as E. cbn in E. now rewrite Z.eqb_refl in E.
      * intro Hk. apply IHout. intro Hk'. apply Hk. apply in_or_app. now right.
Qed.

Lemma links_blocks (f f' : list Z) (pno : Z) (L : list (Z * list Z)) :
  links f pno L ->
  (forall u, In (Z.of_nat u) (map fst L) -> block u f' = block u f) ->
  Forall (fun p => 0 <= p) (map fst L) ->
  links f' pno L.
Proof.
  induction 1 as [|pno nx ids L Hp Hi _ IH]; intros B F; [constructor|].
  cbn [map fst] in B, F. inversion F as [|? ? F0 F']; subst.
  apply links_step with (nx := nx); auto.
  - rewrite (page_ids_same f' (Z.to_nat pno)) by lia.
    rewrite (page_ids_same f (Z.to_nat pno)) in Hi by lia.
    rewrite B; [exact Hi|]. left. lia.
  - apply IH; auto. intros u Hu. apply B. now right.
Qed.

Lemma Forall_bounds_nonneg (L : list Z) (n : Z) :
  Forall (fun p => 0 <= p < n) L -> Forall (fun p => 0 <= p) L.
Proof. apply Forall_impl. lia. Qed.

Lemma In_bounds (L : list Z) (n : nat) (u : nat) :
  Forall (fun p => 0 <= p < Z.of_nat n) L -> In (Z.of_nat u) L -> (u < n)%nat.
Proof. intros F H. rewrite Forall_forall in F. specialize (F _ H). lia. Qed.

Lemma perm_list_insert {A} (pos : nat) (x : A) (l : list A) :
  Permutation (list_insert pos x l) (x :: l).
Proof.
  unfold list_insert. rewrite <- (firstn_skipn pos l) at 3.
  symmetry. apply Permutation_middle.
Qed.

Lemma sorted_firstn_skipn (l : list Z) (k : nat) :
  Sorted Z.le l -> Sorted Z.le (firstn k l) /\ Sorted Z.le (skipn k l).
Proof.
  intro S. apply Sorted_StronglySorted in S; [|intros u v w; lia].
  rewrite <- (firstn_skipn k l) in S. apply ss_app_inv in S as (S1 & S2 & _).
  split; now apply StronglySorted_Sorted.
Qed.

Lemma index_single_present (k0 : Z) :
  index_missing (Some (le_bytes 4 k0 ++ le_bytes 4 0)) = false.
Proof. unfold index_missing. now rewrite length_app, !le_bytes_length. Qed.

Lemma insert_inv_nonempty (r : record) (s : state) (ks : list Z) (n : nat) (k0 : Z)
    (L : list (Z * list Z)) :
  (0 < n)%nat -> length s.(data) = (n * SIZE_OF_PAGE)%nat ->
  s.(index) = Some (le_bytes 4 k0 ++ le_bytes 4 0) -> - 2 ^ 31 <= k0 < 2 ^ 31 ->
  links s.(data) 0 L -> NoDup (map fst L) ->
  Forall (fun p => 0 <= p < Z.of_nat n) (map fst L) ->
  Forall (fun ids => Sorted Z.le ids /\ (1 <= length ids <= BLOCK_FACTOR)%nat) (map snd L) ->
  Permutation (concat (map snd L)) ks ->
  (snd (insert r s) = Ret tt -> store_inv (fst (insert r s)) (r.(id) :: ks))
  /\ (forall e, snd (insert r s) = Exc e -> store_inv (fst (insert r s)) ks).
Proof.
  intros Hn Ln Ix [Hk1 Hk2] Lk ND Bd Sz Pm.
  assert (Im : index_missing s.(index) = false) by (rewrite Ix; apply index_single_present).
  destruct (insert_run r s n Ln Hn) as [[e E] | (es & t & pg & Hes & Et & tn & Hpg & Hb)].
  { rewrite E. cbn [fst snd]. split; [discriminate|]. intros e' _. right.
    exists n, k0, L. repeat split; auto. }
  rewrite Ix, load_all_single in Hes by (assumption || lia).
  apply Ret_inj in Hes. subst es. rewrite page_for_key_single in Et.
  assert (t = 0%nat) by lia. subst t. change (Z.of_nat 0) with 0 in Hpg.
  inversion Lk as [|? nx0 ids0 L' Hp0 Hi0 Lk' EL]. subst L.
  destruct (page_ids_read _ _ _ _ Hi0) as (pg0 & R0 & I0 & N0).
  rewrite Hpg in R0. apply Ret_inj in R0. subst pg0.
  cbn [map fst snd concat] in ND, Bd, Sz, Pm |- *.
  inversion_clear ND as [|? ? N0' ND'].
  inversion_clear Bd as [|? ? B0 Bd'].
  inversion_clear Sz as [|? ? [S0 Z0] Sz'].
  assert (Sp : Sorted Z.le (map id pg.(records))) by (rewrite I0; exact S0).
  destruct (insert_sorted_shape pg r Sp) as (pre & post & _ & _ & _ & _ & Sc & Nc).
  set (cur := insert_into_page_sorted pg r) in *.
  assert (Ic : map id cur.(records)
               = list_insert (bisect_left (map id pg.(records)) r.(id)) r.(id)
                             (map id pg.(records)))
    by (unfold cur, insert_into_page_sorted; cbn [records]; apply map_list_insert).
  assert (Pc : Permutation (map id cur.(records)) (r.(id) :: ids0))
    by (rewrite Ic, <- I0; apply perm_list_insert).
  assert (Lc : length cur.(records) = S (length pg.(records))) by apply insert_sorted_length.
  assert (Lp : (length pg.(records) <= BLOCK_FACTOR)%nat) by exact (read_page_small _ _ _ Hpg).
  assert (Lids : length ids0 = length pg.(records)) by (rewrite <- I0; apply length_map).
  assert (L0 : ((0 + 1) * SIZE_OF_PAGE <= length s.(data))%nat) by (rewrite Ln; nia).
  assert (Old : forall u, In (Z.of_nat u) (map fst L') -> (u < n)%nat /\ u <> 0%nat).
  { intros u Hu. split; [exact (In_bounds _ _ _ Bd' Hu)|]. intros ->. contradiction. }
  cbv zeta in Hb.
  destruct Hb as [[B (bs & P & E)] | [B (bh & Ph & [(e & Pl & E) | (bl & Pl & E)])]].
  - (* no split *)
    rewrite E, insert_finish_ok by exact Im. cbn [fst snd].
    split; [intros _ | intros e' H; discriminate].
    assert (Lb : length bs = SIZE_OF_PAGE) by exact (page_pack_length _ _ P B).
    right. exists n, k0, ((0, map id cur.(records)) :: L'). cbn [data index map fst snd concat].
    repeat split; auto.
    + rewrite overwrite_page_length; auto.
    + apply links_step with (nx := nx0); [lia| |].
      * change 0 with (Z.of_nat 0). rewrite <- N0, <- Nc.
        apply (page_ids_block _ 0 cur bs P). now apply overwrite_page_same.
      * apply (links_blocks s.(data)); auto.
        -- intros u Hu. destruct (Old u Hu). now apply overwrite_page_other.
        -- exact (Forall_bounds_nonneg _ _ Bd').
    + now constructor.
    + constructor; auto. split; [exact Sc|]. rewrite length_map. lia.
    + eapply perm_trans; [apply Permutation_app_tail; exact Pc|].
      cbn [app]. now apply perm_skip.
  - (* split; the low page fails to pack *)
    rewrite E. cbn [fst snd]. split; [discriminate|]. intros e' _.
    assert (L4 : length cur.(records) = 4%nat) by (unfold BLOCK_FACTOR in *; lia).
    rewrite L4 in Ph. change (Nat.div (4 + 1) 2) with 2%nat in Ph.
    assert (Lh : length bh = SIZE_OF_PAGE).
    { apply (page_pack_length _ _ Ph). cbn [records]. rewrite length_skipn. lia. }
    right. exists (S n), k0, ((0, ids0) :: L'). cbn [data index map fst snd concat].
    repeat split; auto.
    + rewrite length_app, Ln, Lh. lia.
    + apply links_step with (nx := nx0); [lia| |].
      * change 0 with (Z.of_nat 0). rewrite (page_ids_same _ 0 (Z.of_nat 0)) by reflexivity.
        rewrite block_append_old by (rewrite Ln; nia).
        rewrite <- (page_ids_same _ 0 (Z.of_nat 0)) by reflexivity. exact Hi0.
      * apply (links_blocks s.(data)); auto.
        -- intros u Hu. destruct (Old u Hu). apply block_append_old. rewrite Ln. nia.
        -- exact (Forall_bounds_nonneg _ _ Bd').
    + now constructor.
    + constructor; [lia|]. eapply Forall_impl; [|exact Bd']. intros p Hp. cbv beta in *. lia.
  - (* split *)
    rewrite E, insert_finish_ok by exact Im. cbn [fst snd].
    split; [intros _ | intros e' H; discriminate].
    assert (L4 : length cur.(records) = 4%nat) by (unfold BLOCK_FACTOR in *; lia).
    rewrite L4 in Ph, Pl. change (Nat.div (4 + 1) 2) with 2%nat in Ph, Pl.
    assert (Lh : length bh = SIZE_OF_PAGE).
    { apply (page_pack_length _ _ Ph). cbn [records]. rewrite length_skipn. lia. }
    assert (Ll : length bl = SIZE_OF_PAGE).
    { apply (page_pack_length _ _ Pl). cbn [records]. rewrite length_firstn. lia. }
    assert (La : length (s.(data) ++ bh) = (S n * SIZE_OF_PAGE)%nat)
      by (rewrite length_app, Ln, Lh; lia).
    assert (L0' : ((0 + 1) * SIZE_OF_PAGE <= length (s.(data) ++ bh))%nat) by (rewrite La; nia).
    destruct (sorted_firstn_skipn _ 2 Sc) as [Sl Sh].
    right. exists (S n), k0,
      ((0, firstn 2 (map id cur.(records)))
       :: (Z.of_nat n, skipn 2 (map id cur.(records))) :: L').
    cbn [data index map fst snd concat]. repeat split; auto.
    + rewrite overwrite_page_length; auto.
    + apply links_step with (nx := Z.of_nat n); [lia| |].
      * change 0 with (Z.of_nat 0). rewrite firstn_map.
        apply (page_ids_block _ 0 (mkPage (firstn 2 cur.(records)) (Z.of_nat n)) bl Pl).
        now apply overwrite_page_same.
      * apply links_step with (nx := nx0); [lia| |].
        -- rewrite skipn_map, <- N0, <- Nc.
           apply (page_ids_block _ n (mkPage (skipn 2 cur.(records)) cur.(next_page)) bh Ph).
           rewrite overwrite_page_other by (auto; lia).
           now apply block_append_new.
        -- apply (links_blocks s.(data)); auto.
           ++ intros u Hu. destruct (Old u Hu).
              rewrite overwrite_page_other by auto.
              apply block_append_old. rewrite Ln. nia.
           ++ exact (Forall_bounds_nonneg _ _ Bd').
    + constructor.
      * intros [H|H]; [lia|]. exact (N0' H).
      * constructor; auto. intro H. apply (In_bounds _ _ n Bd') in H. lia.
    + constructor; [lia|]. constructor; [lia|].
      eapply Forall_impl; [|exact Bd']. intros p Hp. cbv beta in *. lia.
    + constructor; [split; [exact Sl | rewrite length_firstn, length_map; lia]|].
      constructor; [split; [exact Sh | rewrite length_skipn, length_map; lia]|]. exact Sz'.
    + rewrite app_assoc, firstn_skipn.
      eapply perm_trans; [apply Permutation_app_tail; exact Pc|].
      cbn [app]. now apply perm_skip.
Qed.

Lemma insert_inv_empty (r : record) :
  (snd (insert r empty_store) = Ret tt -> store_inv (fst (insert r empty_store)) [r.(id)])
  /\ (forall e, snd (insert r empty_store) = Exc e -> store_inv (fst (insert r empty_store)) []).
Proof.
  destruct (insert_empty_cases r) as [[e E] | (b & P & E)]; rewrite E; cbn [fst snd].
  - split; [discriminate|]. intros. left. auto.
  - split; [intros _ | discriminate].
    assert (Lb : length b = SIZE_OF_PAGE) by (apply (page_pack_length _ _ P); cbn; unfold BLOCK_FACTOR; lia).
    pose proof (page_pack_single_range _ _ P) as [R1 R2].
    right. exists 1%nat, r.(id), [(0, [r.(id)])]. cbn [data index map fst snd concat].
    repeat split; auto.
    + apply links_step with (nx := -1); [lia| |constructor].
      change 0 with (Z.of_nat 0).
      apply (page_ids_block b 0 (mkPage [r] (-1)) b P). now apply block0_single.
    + constructor; [|constructor]. intros [].
    + constructor; [lia|constructor].
    + constructor; [|constructor]. split; [repeat constructor | cbn; unfold BLOCK_FACTOR; lia].
Qed.

Lemma reach_store_inv (s : state) (ks : list Z) : reach s ks -> store_inv s ks.
Proof.
  induction 1 as [|s ks r _ IH Hok|s ks r e _ IH He].
  - left. auto.
  - destruct IH as [[-> ->] | (n & k0 & L & Hn & Ln & Ix & Hk & Lk & ND & Bd & Sz & Pm)].
    + now apply insert_inv_empty.
    + now apply (insert_inv_nonempty r s ks n k0 L).
  - destruct IH as [[-> ->] | (n & k0 & L & Hn & Ln & Ix & Hk & Lk & ND & Bd & Sz & Pm)].
    + now apply (proj2 (insert_inv_empty r) e).
    + now apply (proj2 (insert_inv_nonempty r s ks n k0 L Hn Ln Ix Hk Lk ND Bd Sz Pm) e).
Qed.

Lemma nodup_bounded_length (l : list Z) (n : nat) :
  NoDup l -> Forall (fun p => 0 <= p < Z.of_nat n) l -> (length l <= n)%nat.
Proof.
  intros ND F. rewrite <- (length_seq n 0), <- (length_map Z.of_nat (seq 0 n)).
  apply NoDup_incl_length; [exact ND|]. intros p Hp.
  rewrite Forall_forall in F. specialize (F p Hp).
  replace p with (Z.of_nat (Z.to_nat p)) by lia.
  apply in_map, in_seq. lia.
Qed.

Lemma store_inv_nonempty (s : state) (ks : list Z) :
  store_inv s ks -> ks <> [] ->
  exists n k0 L, (0 < n)%nat /\ length s.(data) = (n * SIZE_OF_PAGE)%nat
    /\ s.(index) = Some (le_bytes 4 k0 ++ le_bytes 4 0) /\ - 2 ^ 31 <= k0 < 2 ^ 31
    /\ links s.(data) 0 L /\ NoDup (map fst L) /\ (length L < S (length s.(data)))%nat
    /\ Forall (fun ids => Sorted Z.le ids /\ (1 <= length ids <= BLOCK_FACTOR)%nat) (map snd L)
    /\ Permutation (concat (map snd L)) ks.
Proof.
  intros [[_ ->] | (n & k0 & L & Hn & Ln & Ix & Hk & Lk & ND & Bd & Sz & Pm)] Hks;
    [contradiction|].
  exists n, k0, L. repeat split; auto; try lia.
  pose proof (nodup_bounded_length _ n ND Bd) as H. rewrite length_map in H.
  rewrite Ln. unfold SIZE_OF_PAGE, SIZE_HEADER, BLOCK_FACTOR, SIZE_OF_RECORD. lia.
Qed.

(** In every store reached from [empty_store] through [insert] calls, once
    an insert has returned normally, the chain from page 0 is finite (it
    ends at [-1]), visits distinct pages, each holding one to
    [BLOCK_FACTOR] records sorted by id, and holds exactly the ids of the
    inserts that returned, with their multiplicity. *)
Theorem reach_chain0 (s : state) (ks : list Z) :
  reach s ks -> ks <> [] ->
  exists L, chain0 s = Ret L /\ NoDup (map fst L)
    /\ Forall (fun ids => Sorted Z.le ids /\ (1 <= length ids <= BLOCK_FACTOR)%nat) (map snd L)
    /\ Permutation (concat (map snd L)) ks.
Proof.
  intros R Hks.
  destruct (store_inv_nonempty s ks (reach_store_inv s ks R) Hks)
    as (n & k0 & L & _ & _ & _ & _ & Lk & ND & Len & Sz & Pm).
  exists L. repeat split; auto. unfold chain0. now apply chain_links.
Qed.

(** [ISAM.search] on every store reached through [insert] calls in which
    an insert has returned: it finds a record with id [k] exactly when [k]
    is the id of an insert that returned, and otherwise reports not-found. *)
Theorem search_reach (s : state) (ks : list Z) (k : Z) :
  reach s ks -> ks <> [] ->
  (In k ks -> exists r, snd (search k s) = Ret (Found r) /\ r.(id) = k)
  /\ (~ In k ks -> snd (search k s) = Ret NotFound).
Proof.
  intros R Hks.
  destruct (store_inv_nonempty s ks (reach_store_inv s ks R) Hks)
    as (n & k0 & L & _ & _ & Ix & Hk & Lk & _ & Len & _ & Pm).
  assert (F : find_page_for_key k s = (s, Ret 0)).
  { unfold find_page_for_key. rewrite Ix, load_all_single by (tauto || lia).
    cbn [rbind]. now rewrite page_for_key_single. }
  unfold search. rewrite (bind_ret_l _ _ s s 0 F). cbn [snd].
  destruct (search_chain_links s.(data) k 0 L _ Lk Len) as [Hin Hout].
  split.
  - intro H. apply Hin. apply (Permutation_in k (Permutation_sym Pm) H).
  - intro H. apply Hout. intro H'. apply H. exact (Permutation_in k Pm H').
Qed.


(** A run of inserts that returns normally extends the reachable stores:
    the ids of the run, last first, join the keys held. *)
Lemma reach_insert_all (rs : list record) (s : state) (ks : list Z) :
  reach s ks -> snd (insert_all rs s) = Ret tt ->
  reach (fst (insert_all rs s)) (rev (map id rs) ++ ks).
Proof.
  revert s ks. induction rs as [|r rs IH]; intros s ks Hr H.
  - exact Hr.
  - destruct (insert r s) as [s1 [[]|e]] eqn:E.
    + rewrite (insert_all_cons _ _ _ _ E) in *. cbn [map rev]. rewrite <- app_assoc.
      cbn [app]. apply IH; [|exact H].
      replace s1 with (fst (insert r s)) by now rewrite E.
      apply reach_ok; [exact Hr | now rewrite E].
    + cbn [insert_all] in H. unfold bind in H. rewrite E in H. discriminate.
Qed.

(** [_insert_into_page_sorted]: on a page whose ids are sorted, the record
    goes after every smaller id and before every id at least as large; the
    page keeps its other records, their order and its [next_page], and its
    ids stay sorted. *)
Theorem insert_into_page_sorted_spec (p : page) (rec : record) :
  Sorted Z.le (map id p.(records)) ->
  exists pre post,
    p.(records) = pre ++ post
    /\ (insert_into_page_sorted p rec).(records) = pre ++ rec :: post
    /\ Forall (fun r => r.(id) < rec.(id)) pre
    /\ Forall (fun r => rec.(id) <= r.(id)) post
    /\ Sorted Z.le (map id (insert_into_page_sorted p rec).(records))
    /\ (insert_into_page_sorted p rec).(next_page) = p.(next_page).
Proof. exact (insert_sorted_shape p rec). Qed.

Lemma pack_records_member (rs : list record) (r : record) (e : exn) :
  In r rs -> record_pack r = Exc e -> exists e', pack_records rs = Exc e'.
Proof.
  induction rs as [|r' rs IH]; intros Hin Hp; [destruct Hin|].
  cbn [pack_records]. destruct Hin as [<-|Hin].
  - rewrite Hp. now exists e.
  - destruct (record_pack r') as [b|e']; cbn [rbind]; [|now exists e'].
    destruct (IH Hin Hp) as [e'' ->]. now exists e''.
Qed.

Lemma page_pack_member (p : page) (r : record) (e : exn) :
  In r p.(records) -> record_pack r = Exc e -> exists e', page_pack p = Exc e'.
Proof.
  intros Hin Hp. destruct (pack_records_member _ _ _ Hin Hp) as [e' E].
  unfold page_pack. destruct (pack_ii _ _) as [h|e'']; cbn [rbind]; [|now exists e''].
  rewrite E. now exists e'.
Qed.

Lemma search_chain_found (fuel : nat) (f : list Z) (key pno : Z) (r : record) :
  search_chain fuel f key pno = Ret (Found r) -> r.(id) = key.
Proof.
  revert pno. induction fuel as [|fuel IH]; intros pno H; cbn [search_chain] in H;
    [discriminate|].
  destruct (pno =? -1); [discriminate|].
  destruct (read_page f pno) as [pg|e]; cbn [rbind] in H; [|discriminate].
  destruct (find (fun r => r.(id) =? key) pg.(records)) as [r'|] eqn:Fd.
  - apply Ret_inj in H. injection H as <-. apply find_some in Fd as [_ E].
    now apply Z.eqb_eq.
  - exact (IH _ H).
Qed.

(** [Page.pack] / [Page.unpack]: a page that packs gives
    [SIZE_HEADER + max(count, BLOCK_FACTOR) * SIZE_OF_RECORD] bytes (padding
    only up to [BLOCK_FACTOR] slots, none beyond), and unpacking them gives
    back its ids, in order, and its [next_page]. *)
Theorem page_pack_layout (p : page) (bs : list Z) :
  page_pack p = Ret bs ->
  length bs = (SIZE_HEADER + Nat.max (length p.(records)) BLOCK_FACTOR * SIZE_OF_RECORD)%nat
  /\ exists p', page_unpack bs = Ret p'
       /\ map id p'.(records) = map id p.(records) /\ p'.(next_page) = p.(next_page).
Proof.
  intro H. destruct (page_pack_spec p bs H) as [L R]. split; [|exact R].
  rewrite L. unfold SIZE_HEADER, BLOCK_FACTOR, SIZE_OF_RECORD.
  destruct (Nat.max_spec (length p.(records)) 3) as [[A ->]|[A ->]]; lia.
Qed.

(** [Page.pack] then [Page.unpack] on a page of at most [BLOCK_FACTOR]
    records that each survive [Record.pack] / [Record.unpack], with an int32
    [next_page]: one [SIZE_OF_PAGE]-byte block that decodes to the page. *)
Theorem page_codec_roundtrip (rs : list record) (nx : Z) :
  Forall (fun r => exists b, record_pack r = Ret b /\ record_unpack b = Ret r) rs ->
  (length rs <= BLOCK_FACTOR)%nat -> - 2 ^ 31 <= nx < 2 ^ 31 ->
  exists bs, page_pack (mkPage rs nx) = Ret bs /\ length bs = SIZE_OF_PAGE
             /\ page_unpack bs = Ret (mkPage rs nx).
Proof.
  intros F B Hn. destruct (page_roundtrip rs nx F B Hn) as (bs & P & U).
  exists bs. repeat split; auto. exact (page_pack_length _ _ P B).
Qed.

(** [DataFile._write_page] on a store of [n] whole pages, for a page number
    [t < n]: if the page packs, the file keeps its length, page [t] then
    reads back with the page's ids and [next_page], and every other page
    keeps its bytes; if it does not pack, nothing is written. *)
Theorem write_page_read_back (s : state) (n t : nat) (p : page) :
  length s.(data) = (n * SIZE_OF_PAGE)%nat -> (t < n)%nat ->
  (length p.(records) <= BLOCK_FACTOR)%nat ->
  match page_pack p with
  | Exc e => d_write_page (Z.of_nat t) p s = (s, Exc e)
  | Ret _ =>
    let s' := fst (d_write_page (Z.of_nat t) p s) in
    snd (d_write_page (Z.of_nat t) p s) = Ret tt
    /\ length s'.(data) = length s.(data) /\ s'.(index) = s.(index)
    /\ (exists p', read_page s'.(data) (Z.of_nat t) = Ret p'
          /\ map id p'.(records) = map id p.(records) /\ p'.(next_page) = p.(next_page))
    /\ forall u, u <> t -> block u s'.(data) = block u s.(data)
  end.
Proof.
  intros L Ht B. destruct (page_pack p) as [bs|e] eqn:P.
  - assert (Hb : length bs = SIZE_OF_PAGE) by exact (page_pack_length _ _ P B).
    assert (Hr : ((t + 1) * SIZE_OF_PAGE <= length s.(data))%nat) by (rewrite L; nia).
    rewrite (d_write_page_ok s t p bs Hr P B). cbn [fst snd data index].
    repeat split.
    + exact (overwrite_page_length _ _ _ Hr Hb).
    + rewrite read_page_block, (overwrite_page_same _ _ _ Hr Hb).
      destruct (page_pack_spec _ _ P) as [_ R]. exact R.
    + intros u Hu. exact (overwrite_page_other _ _ _ _ Hr Hb Hu).
  - apply d_write_page_exc; [lia | exact P].
Qed.

(** [DataFile._append_page] on a store of [n] whole pages: if the page
    packs, its bytes are added at the end, page [n] is returned and reads
    back with the page's ids and [next_page], and the earlier pages keep
    their bytes; if it does not pack, nothing is written. *)
Theorem append_page_read_back (s : state) (n : nat) (p : page) :
  length s.(data) = (n * SIZE_OF_PAGE)%nat ->
  (length p.(records) <= BLOCK_FACTOR)%nat ->
  match page_pack p with
  | Exc e => d_append_page p s = (s, Exc e)
  | Ret bs =>
    d_append_page p s = (mkState (s.(data) ++ bs) s.(index), Ret (Z.of_nat n))
    /\ length (s.(data) ++ bs) = ((n + 1) * SIZE_OF_PAGE)%nat
    /\ (exists p', read_page (s.(data) ++ bs) (Z.of_nat n) = Ret p'
          /\ map id p'.(records) = map id p.(records) /\ p'.(next_page) = p.(next_page))
    /\ forall u, (u < n)%nat -> block u (s.(data) ++ bs) = block u s.(data)
  end.
Proof.
  intros L B. destruct (page_pack p) as [bs|e] eqn:P.
  - assert (Hb : length bs = SIZE_OF_PAGE) by exact (page_pack_length _ _ P B).
    repeat split.
    + exact (d_append_page_ok s n p bs L P).
    + rewrite length_app, L, Hb. lia.
    + rewrite read_page_block, (block_append_new _ _ _ L Hb).
      destruct (page_pack_spec _ _ P) as [_ R]. exact R.
    + intros u Hu. apply block_append_old. rewrite L. nia.
  - exact (d_append_page_exc s p e P).
Qed.

(** [ISAM.insert] on the store a fresh [ISAM(...)] starts from: when the
    one-record page [Page([rec], -1)] does not pack, it raises and writes
    nothing; otherwise the data file becomes that one page and the index
    file the single entry [(rec.id, 0)]. *)
Theorem insert_into_empty_store (r : record) :
  match page_pack (mkPage [r] (-1)) with
  | Exc e => insert r empty_store = (empty_store, Exc e)
  | Ret b =>
    insert r empty_store = (mkState b (Some (le_bytes 4 r.(id) ++ le_bytes 4 0)), Ret tt)
    /\ length b = SIZE_OF_PAGE
    /\ page_ids b 0 = Ret ([r.(id)], -1)
    /\ index_entries (fst (insert r empty_store)) = Ret [(r.(id), 0)]
  end.
Proof.
  destruct (page_pack (mkPage [r] (-1))) as [b|e] eqn:P.
  - assert (R := page_pack_single_range r b P).
    assert (E : insert r empty_store
                = (mkState b (Some (le_bytes 4 r.(id) ++ le_bytes 4 0)), Ret tt))
      by (apply insert_empty_store; [exact P | apply pack_ii_in_range; lia]).
    assert (Hb : length b = SIZE_OF_PAGE) by (apply (page_pack_length _ _ P); cbn; unfold BLOCK_FACTOR; lia).
    repeat split.
    + exact E.
    + exact Hb.
    + apply (page_ids_block _ 0 _ _ P). apply block0_single. exact Hb.
    + rewrite E. unfold index_entries. cbn [fst index]. apply load_all_single; lia.
  - unfold insert.
    rewrite (bind_ret_l _ _ empty_store empty_store 0) by reflexivity. cbv beta.
    rewrite (bind_ret_l _ _ empty_store empty_store 0) by reflexivity. cbv beta.
    rewrite Z.eqb_refl.
    apply (bind_exc_l _ _ _ _ e). exact (d_append_page_exc empty_store _ e P).
Qed.

(** [ISAM.insert] of a record that [Record.pack] rejects, when the page
    [find_page_for_key] picks has room for one more record: the insert
    raises and the store (data file and index file) is left as it was. *)
Theorem insert_unpackable_no_write (r : record) (s : state) (n : nat) (e0 : exn) :
  length s.(data) = (n * SIZE_OF_PAGE)%nat -> (0 < n)%nat ->
  (forall es t pg, load_all s.(index) = Ret es -> page_for_key es r.(id) = t ->
     read_page s.(data) t = Ret pg -> (length pg.(records) < BLOCK_FACTOR)%nat) ->
  record_pack r = Exc e0 ->
  exists e, insert r s = (s, Exc e).
Proof.
  intros L Hn Room Pe.
  destruct (insert_run r s n L Hn) as [He|(es & t & pg & Les & Pt & Ht & Rp & Br)];
    [exact He|].
  specialize (Room es (Z.of_nat t) pg Les Pt Rp).
  assert (Lc := insert_sorted_length pg r).
  cbv zeta in Br. destruct Br as [[_ (bs & P & _)]|[Hgt _]]; exfalso.
  - assert (Hin : In r (insert_into_page_sorted pg r).(records)).
    { unfold insert_into_page_sorted. cbn [records].
      apply (Permutation_in r (Permutation_sym (perm_list_insert _ _ _))). now left. }
    destruct (page_pack_member _ r e0 Hin Pe) as [e' P']. congruence.
  - unfold BLOCK_FACTOR in *. lia.
Qed.

Lemma load_entries_chunks (fuel : nat) (bs : list Z) :
  (length bs <= 8 * fuel)%nat ->
  (Nat.modulo (length bs) 8 <> 0%nat -> load_entries fuel bs = Exc StructError)
  /\ (Nat.modulo (length bs) 8 = 0%nat ->
      exists es, load_entries fuel bs = Ret es /\ length es = Nat.div (length bs) 8).
Proof.
  revert bs. induction fuel as [|fuel IH]; intros bs Hl.
  - destruct bs; [|cbn in Hl; lia].
    split; [intro H; now exfalso | intros _; now exists []].
  - destruct bs as [|x l] eqn:Eb.
    + split; [intro H; now exfalso | intros _; now exists []].
    + rewrite <- Eb in Hl |- *. assert (Hne : bs <> []) by (rewrite Eb; discriminate).
      destruct (Nat.le_gt_cases 8 (length bs)) as [H8|H8].
      * assert (Lc : length (firstn 8 bs) = 8%nat) by (rewrite length_firstn; lia).
        rewrite (load_entries_step fuel bs Hne Lc).
        assert (Ls : length (skipn 8 bs) = (length bs - 8)%nat) by apply length_skipn.
        assert (Em : length bs = (length (skipn 8 bs) + 1 * 8)%nat) by lia.
        destruct (IH (skipn 8 bs)) as [IHe IHo]; [lia|].
        rewrite Em, Nat.Div0.mod_add, Nat.div_add by lia.
        split.
        -- intro H. now rewrite (IHe H).
        -- intro H. destruct (IHo H) as (es & E & Le). rewrite E. cbn [rbind].
           eexists; split; [reflexivity|]. cbn [length]. lia.
      * rewrite Eb. cbn [load_entries]. rewrite <- Eb.
        rewrite length_firstn, Nat.mod_small by lia.
        replace (Nat.eqb (Nat.min 8 (length bs)) 8) with false
          by (symmetry; apply Nat.eqb_neq; lia).
        split; [reflexivity|]. intro H. exfalso. rewrite Eb in H. discriminate H.
Qed.

(** [IndexFile._load_all] on an index file of [bs] bytes: it raises
    [struct.error] exactly when the length is not a multiple of 8 (the
    last chunk is short); otherwise it returns one entry per 8 bytes. *)
Theorem load_all_chunks (bs : list Z) :
  (Nat.modulo (length bs) 8 <> 0%nat -> load_all (Some bs) = Exc StructError)
  /\ (Nat.modulo (length bs) 8 = 0%nat ->
      exists es, load_all (Some bs) = Ret es /\ length es = Nat.div (length bs) 8).
Proof. unfold load_all. apply load_entries_chunks. lia. Qed.

Lemma load_entries_packed (fuel : nat) (es : list (Z * Z)) (bss : list (list Z)) :
  Forall2 (fun kp b => pack_ii (fst kp) (snd kp) = Ret b) es bss ->
  (length es <= fuel)%nat -> load_entries fuel (concat bss) = Ret es.
Proof.
  intro F. revert fuel. induction F as [|[k p] b es bss Hb F IH]; intros fuel Hf.
  - destruct fuel; reflexivity.
  - destruct fuel as [|fuel]; [cbn in Hf; lia|].
    destruct (pack_ii_spec _ _ _ Hb) as (Lb & Ek & Ep & _ & _).
    cbn [concat]. assert (Hne : b ++ concat bss <> []) by (destruct b; [discriminate | discriminate]).
    assert (Fb : firstn 8 (b ++ concat bss) = b) by (rewrite <- Lb; apply firstn_app_exact).
    assert (Sb : skipn 8 (b ++ concat bss) = concat bss) by (rewrite <- Lb; apply skipn_app_exact).
    rewrite (load_entries_step fuel _ Hne) by (rewrite Fb; exact Lb).
    rewrite Sb, (IH fuel) by (cbn in Hf; lia). cbn [rbind]. rewrite Fb, Ek, Ep. reflexivity.
Qed.

(** [IndexFile._load_all] reads back what [struct.pack('ii', key, pno)]
    calls wrote one after the other: the same entries, in order. *)
Theorem load_all_packed (es : list (Z * Z)) (bss : list (list Z)) :
  Forall2 (fun kp b => pack_ii (fst kp) (snd kp) = Ret b) es bss ->
  load_all (Some (concat bss)) = Ret es.
Proof.
  intro F. unfold load_all. apply load_entries_packed; [exact F|].
  assert (L : length (concat bss) = (8 * length es)%nat).
  { clear -F. induction F as [|kp b es bss Hb F IH]; [reflexivity|].
    cbn [concat length]. rewrite length_app, IH.
    destruct (pack_ii_spec _ _ _ Hb) as (Lb & _). rewrite Lb. lia. }
  rewrite L. lia.
Qed.

Lemma best_le_spec (key : Z) (es : list (Z * Z)) (b : option Z) :
  (best_le key es b = b /\ match es with [] => True | (k, _) :: _ => key < k end)
  \/ exists pre k p post,
       es = pre ++ (k, p) :: post
       /\ Forall (fun e => fst e <= key) (pre ++ [(k, p)])
       /\ match post with [] => True | (k', _) :: _ => key < k' end
       /\ best_le key es b = Some p.
Proof.
  revert b. induction es as [|[k p] es IH]; intro b; [now left|].
  cbn [best_le]. destruct (Z.leb_spec k key) as [Hk|Hk]; [right | left; split; auto].
  destruct (IH (Some p)) as [[E M]|(pre & k' & p' & post & Ees & F & M & E)].
  - exists [], k, p, es. repeat split; auto. cbn. constructor; [cbn; lia | constructor].
  - exists ((k, p) :: pre), k', p', post. repeat split; auto.
    + now rewrite Ees.
    + cbn [app]. constructor; [cbn; lia | exact F].
Qed.

(** [IndexFile.find_page_for_key] on the entries [_load_all] returns: 0
    when there are none; the first entry's page when the key is below the
    first key; otherwise the page of the entry that ends the leading run of
    entries with keys [<= key] (the scan stops at the first larger key, so
    later entries are not looked at). *)
Theorem page_for_key_spec (es : list (Z * Z)) (key : Z) :
  match es with
  | [] => page_for_key es key = 0
  | (k0, p0) :: _ =>
    (key < k0 -> page_for_key es key = p0)
    /\ (k0 <= key ->
        exists pre k p post,
          es = pre ++ (k, p) :: post
          /\ Forall (fun e => fst e <= key) (pre ++ [(k, p)])
          /\ match post with [] => True | (k', _) :: _ => key < k' end
          /\ page_for_key es key = p)
  end.
Proof.
  destruct es as [|[k0 p0] es']; [reflexivity|].
  change (page_for_key ((k0, p0) :: es') key)
    with (match best_le key ((k0, p0) :: es') None with Some p => p | None => p0 end).
  split; intro H.
  - cbn [best_le]. replace (k0 <=? key) with false by (symmetry; apply Z.leb_gt; lia).
    reflexivity.
  - destruct (best_le_spec key ((k0, p0) :: es') None)
      as [[E M]|(pre & k & p & post & Ees & F & M & E)]; [lia|].
    exists pre, k, p, post. rewrite E. auto.
Qed.

(** [ISAM.search] on any store: a record it returns has the id searched
    for. *)
Theorem search_found_key (k : Z) (s : state) (r : record) :
  snd (search k s) = Ret (Found r) -> r.(id) = k.
Proof.
  unfold search, bind, find_page_for_key.
  destruct (load_all s.(index)) as [es|e]; cbn [rbind snd]; [|discriminate].
  apply search_chain_found.
Qed.


(** ** [p1.py]: the binary searches *)

Lemma position_loop_spec (ids : list Z) (x : Z) (fuel : nat) (l r : Z) :
  Sorted Z.le ids -> 0 <= l -> l <= r + 1 -> r < Z.of_nat (length ids) ->
  (forall i : nat, Z.of_nat i < l -> nth i ids 0 < x) ->
  (forall i : nat, r < Z.of_nat i -> (i < length ids)%nat -> x < nth i ids 0) ->
  r - l + 1 <= Z.of_nat fuel ->
  (In x ids -> P1.position_loop fuel ids x l r = None)
  /\ (~ In x ids -> exists k : nat, P1.position_loop fuel ids x l r = Some (Z.of_nat k)
        /\ (k <= length ids)%nat
        /\ (forall i, (i < k)%nat -> nth i ids 0 < x)
        /\ (forall i, (k <= i < length ids)%nat -> x < nth i ids 0)).
Proof.
  intros S. revert l r. induction fuel as [|fuel IH]; intros l r H0 Hlr Hr Lo Up F.
  - assert (El : l = r + 1) by lia. cbn [P1.position_loop]. split.
    + intro Hin. exfalso. apply (In_nth _ _ 0) in Hin as (i & Hi & E).
      destruct (Z.ltb_spec (Z.of_nat i) l); [specialize (Lo i) | specialize (Up i)]; lia.
    + intros _. exists (Z.to_nat l). repeat split; [f_equal; lia | lia | |];
        intros i Hi; [apply Lo | apply Up]; lia.
  - cbn [P1.position_loop]. destruct (Z.leb_spec l r) as [Hle|Hgt].
    + assert (Hm : l <= (l + r) / 2 <= r).
      { pose proof (Z.div_mod (l + r) 2 ltac:(lia)).
        pose proof (Z.mod_pos_bound (l + r) 2 ltac:(lia)). lia. }
      set (mid := (l + r) / 2) in *. set (m := Z.to_nat mid).
      assert (Em : Z.of_nat m = mid) by lia.
      assert (Hmn : (m < length ids)%nat) by lia.
      destruct (Z.eqb_spec (nth m ids 0) x) as [Eq|Ne].
      * split; [reflexivity|]. intro N. exfalso. apply N. rewrite <- Eq. apply nth_In. exact Hmn.
      * destruct (Z.ltb_spec (nth m ids 0) x) as [Lt|Ge].
        -- apply IH; try lia; [|exact Up].
           intros i Hi. destruct (Z.ltb_spec (Z.of_nat i) l) as [Hil|Hil]; [auto|].
           pose proof (sorted_nth ids S i m ltac:(lia)). lia.
        -- apply IH; try lia; [exact Lo|].
           intros i Hi Hn. destruct (Z.ltb_spec r (Z.of_nat i)) as [Hir|Hir]; [auto|].
           pose proof (sorted_nth ids S m i ltac:(lia)). lia.
    + split.
      * intro Hin. exfalso. apply (In_nth _ _ 0) in Hin as (i & Hi & E).
        destruct (Z.ltb_spec (Z.of_nat i) l); [specialize (Lo i) | specialize (Up i)]; lia.
      * intros _. exists (Z.to_nat l). repeat split; [f_equal; lia | lia | |];
          intros i Hi; [apply Lo | apply Up]; lia.
Qed.

Lemma split_point_unique (a : list Z) (x : Z) (k p : nat) :
  (k <= length a)%nat -> (p <= length a)%nat ->
  (forall i, (i < k)%nat -> nth i a 0 < x) -> (forall i, (k <= i < length a)%nat -> x <= nth i a 0) ->
  (forall i, (i < p)%nat -> nth i a 0 < x) -> (forall i, (p <= i < length a)%nat -> x <= nth i a 0) ->
  k = p.
Proof.
  intros Hk Hp Lk Uk Lp Up. destruct (Nat.lt_trichotomy k p) as [H|[H|H]]; auto; exfalso.
  - specialize (Lp k H). specialize (Uk k ltac:(lia)). lia.
  - specialize (Lk p H). specialize (Up p ltac:(lia)). lia.
Qed.

Lemma split_forall (a : list Z) (k : nat) (P Q : Z -> Prop) :
  (forall i, (i < k)%nat -> P (nth i a 0)) -> (forall i, (k <= i < length a)%nat -> Q (nth i a 0)) ->
  Forall P (firstn k a) /\ Forall Q (skipn k a).
Proof.
  intros Lo Up. split; apply Forall_forall; intros y Hy; apply (In_nth _ _ 0) in Hy as (i & Hi & <-).
  - rewrite length_firstn in Hi. rewrite nth_firstn.
    replace (Nat.ltb i k) with true by (symmetry; apply Nat.ltb_lt; lia). apply Lo. lia.
  - rewrite length_skipn in Hi. rewrite nth_skipn. apply Up. lia.
Qed.

(** [Page.position] of [p1.py] on a page whose ids are sorted: [None]
    exactly when the id is already on the page; otherwise the insertion
    point, the same position as [bisect.bisect_left] of [prueba.py], with
    every id before it smaller and every id from it on larger. *)
Theorem position_spec (p : page) (x : Z) :
  Sorted Z.le (map id p.(records)) ->
  (In x (map id p.(records)) -> P1.position p x = None)
  /\ (~ In x (map id p.(records)) ->
      P1.position p x = Some (Z.of_nat (bisect_left (map id p.(records)) x))
      /\ Forall (fun y => y < x) (firstn (bisect_left (map id p.(records)) x) (map id p.(records)))
      /\ Forall (fun y => x < y) (skipn (bisect_left (map id p.(records)) x) (map id p.(records)))).
Proof.
  intro Srt. unfold P1.position. set (ids := map id p.(records)) in *.
  destruct (position_loop_spec ids x (S (length ids)) 0 (Z.of_nat (length ids) - 1) Srt)
    as [Hin Hout]; [lia | lia | lia | intros i Hi; lia | intros i Hi Hn; lia | lia |].
  split; [exact Hin|]. intro N. destruct (Hout N) as (k & E & Hk & Lo & Up).
  destruct (bisect_loop_spec ids x (length ids) 0 (length ids) Srt) as (Lp & Upp & Lep);
    [intros; lia | intros; lia | lia | lia |].
  unfold bisect_left. set (q := bisect_loop (length ids) ids x 0 (length ids)) in *.
  assert (Ekq : k = q).
  { apply (split_point_unique ids x); auto. intros i Hi. specialize (Up i Hi). lia. }
  subst q. rewrite <- Ekq. split; [exact E|]. apply split_forall; assumption.
Qed.

Lemma upper_loop_spec (keys : list Z) (key : Z) (fuel : nat) (l r : Z) :
  Sorted Z.le keys -> 0 <= l <= r -> r <= Z.of_nat (length keys) ->
  (forall i : nat, Z.of_nat i < l -> nth i keys 0 <= key) ->
  (forall i : nat, r <= Z.of_nat i -> (i < length keys)%nat -> key < nth i keys 0) ->
  r - l <= Z.of_nat fuel ->
  let p := P1.upper_loop fuel keys key l r in
  0 <= p <= Z.of_nat (length keys)
  /\ (forall i : nat, Z.of_nat i < p -> nth i keys 0 <= key)
  /\ (forall i : nat, p <= Z.of_nat i -> (i < length keys)%nat -> key < nth i keys 0).
Proof.
  intros S. revert l r. induction fuel as [|fuel IH]; intros l r Hl Hr Lo Up F;
    cbn [P1.upper_loop].
  - replace r with l in * by lia. auto with zarith.
  - destruct (Z.ltb_spec l r) as [H|H]; [|replace r with l in * by lia; auto with zarith].
    assert (Hm : l <= (l + r) / 2 < r).
    { pose proof (Z.div_mod (l + r) 2 ltac:(lia)).
      pose proof (Z.mod_pos_bound (l + r) 2 ltac:(lia)). lia. }
    set (mid := (l + r) / 2) in *.
    destruct (Z.leb_spec (nth (Z.to_nat mid) keys 0) key) as [Le|Gt].
    + apply IH; try lia; [|exact Up].
      intros i Hi. destruct (Z.ltb_spec (Z.of_nat i) l) as [Hil|Hil]; [auto|].
      pose proof (sorted_nth keys S i (Z.to_nat mid) ltac:(lia)). lia.
    + apply IH; try lia; [exact Lo|].
      intros i Hi Hn. pose proof (sorted_nth keys S (Z.to_nat mid) i ltac:(lia)). lia.
Qed.

Lemma lower_loop_spec (keys : list Z) (x : Z) (fuel : nat) (l r : Z) :
  Sorted Z.le keys -> 0 <= l -> l <= r + 1 -> r < Z.of_nat (length keys) ->
  (forall i : nat, Z.of_nat i < l -> nth i keys 0 < x) ->
  (forall i : nat, r < Z.of_nat i -> (i < length keys)%nat -> x <= nth i keys 0) ->
  r - l + 1 <= Z.of_nat fuel ->
  let p := P1.lower_loop fuel keys x l r in
  0 <= p <= Z.of_nat (length keys)
  /\ (forall i : nat, Z.of_nat i < p -> nth i keys 0 < x)
  /\ (forall i : nat, p <= Z.of_nat i -> (i < length keys)%nat -> x <= nth i keys 0).
Proof.
  intros S. revert l r. induction fuel as [|fuel IH]; intros l r H0 Hlr Hr Lo Up F;
    cbn [P1.lower_loop].
  - repeat split; try lia; [intros i Hi; apply Lo | intros i Hi Hn; apply Up]; lia.
  - destruct (Z.leb_spec l r) as [Hle|Hgt].
    + assert (Hm : l <= (l + r) / 2 <= r).
      { pose proof (Z.div_mod (l + r) 2 ltac:(lia)).
        pose proof (Z.mod_pos_bound (l + r) 2 ltac:(lia)). lia. }
      set (mid := (l + r) / 2) in *.
      destruct (Z.ltb_spec (nth (Z.to_nat mid) keys 0) x) as [Lt|Ge].
      * apply IH; try lia; [|exact Up].
        intros i Hi. destruct (Z.ltb_spec (Z.of_nat i) l) as [Hil|Hil]; [auto|].
        pose proof (sorted_nth keys S i (Z.to_nat mid) ltac:(lia)). lia.
      * apply IH; try lia; [exact Lo|].
        intros i Hi Hn. destruct (Z.ltb_spec r (Z.of_nat i)) as [Hir|Hir]; [auto|].
        pose proof (sorted_nth keys S (Z.to_nat mid) i ltac:(lia)). lia.
    + repeat split; try lia; [intros i Hi; apply Lo | intros i Hi Hn; apply Up]; lia.
Qed.

(** ** [p1.py]: the index file *)

Definition rng (v : Z) : Prop := - 2 ^ 31 <= v < 2 ^ 31.

Lemma read_i_at (pre rest : list Z) (v : Z) :
  rng v -> P1.read_i (pre ++ le_bytes 4 v ++ rest) (length pre) = Ret v.
Proof.
  intro Hv. unfold P1.read_i, slice. rewrite skipn_app_exact.
  assert (F : firstn 4 (le_bytes 4 v ++ rest) = le_bytes 4 v).
  { pose proof (firstn_app_exact (le_bytes 4 v) rest) as H.
    rewrite le_bytes_length in H. exact H. }
  rewrite F, le_bytes_length. cbn. f_equal. apply unpack_i_le_bytes. exact Hv.
Qed.

Lemma read_pairs_at (pairs : list (Z * Z)) (pre : list Z) :
  Forall (fun kp => rng (fst kp) /\ rng (snd kp)) pairs ->
  P1.read_pairs (length pairs)
    (pre ++ concat (map (fun kp => le_bytes 4 (fst kp) ++ le_bytes 4 (snd kp)) pairs))
    (length pre)
  = Ret (map snd pairs, map fst pairs).
Proof.
  revert pre. induction pairs as [|[k p] pairs IH]; intros pre F; [reflexivity|].
  inversion_clear F as [|? ? [Hk Hp] F']. cbn [P1.read_pairs length map concat fst snd].
  rewrite <- !app_assoc.
  rewrite (read_i_at pre _ k Hk). cbn [rbind].
  replace (length pre + 4)%nat with (length (pre ++ le_bytes 4 k)) by (rewrite length_app, le_bytes_length; lia).
  rewrite app_assoc, (read_i_at (pre ++ le_bytes 4 k) _ p Hp). cbn [rbind].
  replace (length pre + 8)%nat with (length ((pre ++ le_bytes 4 k) ++ le_bytes 4 p))
    by (rewrite !length_app, !le_bytes_length; lia).
  rewrite app_assoc, (IH _ F'). reflexivity.
Qed.

Lemma getIndex_bytes (p0 : Z) (pairs : list (Z * Z)) :
  rng p0 -> Forall (fun kp => rng (fst kp) /\ rng (snd kp)) pairs ->
  Z.of_nat (length pairs) + 1 < 2 ^ 31 ->
  P1.getIndex (P1.index_bytes p0 pairs) = Ret (p0 :: map snd pairs, map fst pairs).
Proof.
  intros H0 F Hl. unfold P1.getIndex, P1.index_bytes.
  pose proof (read_i_at [] (le_bytes 4 p0 ++ concat (map (fun kp => le_bytes 4 (fst kp) ++ le_bytes 4 (snd kp)) pairs))
                (Z.of_nat (length pairs) + 1) ltac:(unfold rng; lia)) as R.
  cbn [app length] in R. rewrite R. cbn [rbind].
  pose proof (read_i_at (le_bytes 4 (Z.of_nat (length pairs) + 1))
                (concat (map (fun kp => le_bytes 4 (fst kp) ++ le_bytes 4 (snd kp)) pairs))
                p0 H0) as R0.
  rewrite le_bytes_length in R0. rewrite R0. cbn [rbind].
  destruct (Z.eqb_spec (Z.of_nat (length pairs) + 1) 1) as [E|E].
  - destruct pairs; [reflexivity | cbn in E; lia].
  - replace (Z.to_nat (Z.of_nat (length pairs) + 1 - 1)) with (length pairs) by lia.
    rewrite app_assoc.
    pose proof (read_pairs_at pairs (le_bytes 4 (Z.of_nat (length pairs) + 1) ++ le_bytes 4 p0) F) as RP.
    rewrite length_app, !le_bytes_length in RP. cbn in RP |- *. rewrite RP. reflexivity.
Qed.

Lemma write_at_zero (bs f : list Z) : write_at 0 bs f = Ret (bs ++ skipn (length bs) f).
Proof. reflexivity. Qed.

Lemma skipn_le_bytes (v : Z) (rest : list Z) : skipn 4 (le_bytes 4 v ++ rest) = rest.
Proof.
  pose proof (skipn_app_exact (le_bytes 4 v) rest) as H. rewrite le_bytes_length in H. exact H.
Qed.

(** [IndexFile.addIndex] of [p1.py] when the index file does not exist:
    it creates the file with size 1 and the page, and [getIndex] then
    returns that page and no key. *)
Theorem addIndex_new (page_pos key : Z) :
  rng page_pos ->
  P1.addIndex page_pos key None = (Some (P1.index_bytes page_pos []), Ret tt)
  /\ P1.getIndex (P1.index_bytes page_pos []) = Ret ([page_pos], []).
Proof.
  intro Hp. split.
  - unfold P1.addIndex. rewrite (pack_i_in_range 1) by lia.
    rewrite (pack_i_in_range page_pos Hp). unfold P1.index_bytes. cbn [length map concat].
    now rewrite app_nil_r.
  - apply (getIndex_bytes page_pos []); [exact Hp | constructor | cbn; lia].
Qed.

(** [IndexFile.addIndex] of [p1.py] on an index file of [size - 1] pairs:
    the pair [(key, page_pos)] is appended after the others, whatever its
    key, and the size goes up by one; [getIndex] then returns the old pages
    and keys followed by the new ones. *)
Theorem addIndex_append (page_pos key p0 : Z) (pairs : list (Z * Z)) :
  rng page_pos -> rng key -> rng p0 ->
  Forall (fun kp => rng (fst kp) /\ rng (snd kp)) pairs ->
  Z.of_nat (length pairs) + 2 < 2 ^ 31 ->
  P1.addIndex page_pos key (Some (P1.index_bytes p0 pairs))
  = (Some (P1.index_bytes p0 (pairs ++ [(key, page_pos)])), Ret tt)
  /\ P1.getIndex (P1.index_bytes p0 (pairs ++ [(key, page_pos)]))
     = Ret (p0 :: map snd pairs ++ [page_pos], map fst pairs ++ [key]).
Proof.
  intros Hp Hk H0 F Hl. split.
  - unfold P1.addIndex. rewrite (pack_i_in_range key Hk), (pack_i_in_range page_pos Hp).
    unfold P1.index_bytes.
    set (C := concat (map (fun kp => le_bytes 4 (fst kp) ++ le_bytes 4 (snd kp)) pairs)).
    assert (R : P1.read_i (((le_bytes 4 (Z.of_nat (length pairs) + 1) ++ le_bytes 4 p0 ++ C)
                             ++ le_bytes 4 key) ++ le_bytes 4 page_pos) 0
                = Ret (Z.of_nat (length pairs) + 1)).
    { rewrite <- !app_assoc. exact (read_i_at [] _ (Z.of_nat (length pairs) + 1) ltac:(unfold rng; lia)). }
    rewrite R, (pack_i_in_range (Z.of_nat (length pairs) + 1 + 1)) by lia.
    rewrite write_at_zero, le_bytes_length, <- !app_assoc, skipn_le_bytes.
    rewrite length_app, map_app, concat_app. cbn [length map concat fst snd].
    replace (Z.of_nat (length pairs + 1) + 1) with (Z.of_nat (length pairs) + 1 + 1) by lia.
    fold C. rewrite app_nil_r. reflexivity.
  - rewrite (getIndex_bytes p0 (pairs ++ [(key, page_pos)])).
    + now rewrite !map_app.
    + exact H0.
    + apply Forall_app. split; [exact F | constructor; [split; assumption | constructor]].
    + rewrite length_app. cbn [length]. lia.
Qed.

Lemma combine_fst_snd (l : list (Z * Z)) : combine (map fst l) (map snd l) = l.
Proof. induction l as [|[a b] l IH]; cbn; [reflexivity | now rewrite IH]. Qed.

Lemma combine_insert (l1 l2 : list (Z * Z)) (a b : Z) :
  combine (map fst l1 ++ [a] ++ map fst l2) (map snd l1 ++ [b] ++ map snd l2)
  = l1 ++ (a, b) :: l2.
Proof.
  induction l1 as [|[x y] l1 IH]; cbn in *; [now rewrite combine_fst_snd | now rewrite IH].
Qed.

Lemma pack_seq_pairs (l : list (Z * Z)) :
  Forall (fun kp => rng (fst kp) /\ rng (snd kp)) l ->
  P1.pack_seq (flat_map (fun kp => [fst kp; snd kp]) l)
  = (concat (map (fun kp => le_bytes 4 (fst kp) ++ le_bytes 4 (snd kp)) l), None).
Proof.
  induction 1 as [|[a b] l [Ha Hb] F IH]; [reflexivity|].
  cbn [flat_map app fst snd P1.pack_seq]. rewrite (pack_i_in_range a Ha), (pack_i_in_range b Hb).
  rewrite IH. cbn [map concat fst snd]. now rewrite app_assoc.
Qed.

Lemma index_bytes_length (p0 : Z) (pairs : list (Z * Z)) :
  length (P1.index_bytes p0 pairs) = (8 + 8 * length pairs)%nat.
Proof.
  unfold P1.index_bytes. rewrite !length_app, !le_bytes_length, entries_bytes_length. lia.
Qed.

(** [IndexFile.updateIndex] of [p1.py] on an index file whose keys are
    sorted: the pair [(key, page_pos)] goes after every key [<= key] (after
    equal keys) and before every larger key, the file is rewritten with the
    size up by one, the keys stay sorted, and [getIndex] returns the pages
    and keys with the new ones at that position. *)
Theorem updateIndex_insert (page_pos key p0 : Z) (pairs : list (Z * Z)) :
  rng page_pos -> rng key -> rng p0 ->
  Forall (fun kp => rng (fst kp) /\ rng (snd kp)) pairs ->
  Z.of_nat (length pairs) + 2 < 2 ^ 31 -> Sorted Z.le (map fst pairs) ->
  exists pre post,
    pairs = pre ++ post
    /\ Forall (fun kp => fst kp <= key) pre /\ Forall (fun kp => key < fst kp) post
    /\ P1.updateIndex page_pos key (Some (P1.index_bytes p0 pairs))
       = (Some (P1.index_bytes p0 (pre ++ (key, page_pos) :: post)), Ret true)
    /\ P1.getIndex (P1.index_bytes p0 (pre ++ (key, page_pos) :: post))
       = Ret (p0 :: map snd pre ++ page_pos :: map snd post, map fst pre ++ key :: map fst post)
    /\ Sorted Z.le (map fst pre ++ key :: map fst post).
Proof.
  intros Hp Hk H0 F Hl Srt.
  set (keys := map fst pairs) in *.
  assert (Lk : length keys = length pairs) by apply length_map.
  destruct (upper_loop_spec keys key (length keys) 0 (Z.of_nat (length keys)) Srt)
    as (Rg & Lo & Up); [lia | lia | intros i Hi; lia | intros i Hi Hn; lia | lia |].
  set (u := P1.upper_loop (length keys) keys key 0 (Z.of_nat (length keys))) in *.
  set (q := Z.to_nat u).
  destruct (split_forall keys q (fun y => y <= key) (fun y => key < y)) as [Fl Fh].
  { intros i Hi. apply Lo. lia. }
  { intros i Hi. apply Up; lia. }
  unfold keys in Fl, Fh. rewrite firstn_map, Forall_map in Fl. rewrite skipn_map, Forall_map in Fh.
  exists (firstn q pairs), (skipn q pairs).
  set (pre := firstn q pairs) in *. set (post := skipn q pairs) in *.
  assert (Ep : pairs = pre ++ post) by (symmetry; apply firstn_skipn).
  assert (Fr : Forall (fun kp => rng (fst kp) /\ rng (snd kp)) (pre ++ (key, page_pos) :: post)).
  { rewrite Ep in F. apply Forall_app in F as [F1 F2].
    apply Forall_app. split; [exact F1 | constructor; [split; assumption | exact F2]]. }
  assert (Ln : length (pre ++ (key, page_pos) :: post) = S (length pairs)).
  { rewrite Ep, !length_app. cbn [length]. lia. }
  split; [exact Ep|]. split; [exact Fl|]. split; [exact Fh|]. split; [|split].
  - unfold P1.updateIndex. rewrite getIndex_bytes by (auto || lia). cbv iota beta zeta.
    fold keys. fold u. fold q. unfold keys.
    rewrite firstn_map, skipn_map, (firstn_map snd), (skipn_map snd).
    fold pre post. rewrite combine_insert.
    replace (Z.of_nat (length (p0 :: map snd pairs)) + 1)
      with (Z.of_nat (length (pre ++ (key, page_pos) :: post)) + 1)
      by (rewrite Ln; cbn [length]; rewrite length_map; lia).
    cbn [P1.pack_seq]. rewrite (pack_i_in_range (Z.of_nat (length (pre ++ (key, page_pos) :: post)) + 1) ltac:(rewrite Ln; lia)).
    rewrite (pack_i_in_range p0 H0). rewrite (pack_seq_pairs _ Fr).
    rewrite write_at_zero.
    set (w := le_bytes 4 (Z.of_nat (length (pre ++ (key, page_pos) :: post)) + 1)
                ++ le_bytes 4 p0 ++ concat (map (fun kp => le_bytes 4 (fst kp) ++ le_bytes 4 (snd kp))
                                                (pre ++ (key, page_pos) :: post))).
    assert (Lw : length w = length (P1.index_bytes p0 (pre ++ (key, page_pos) :: post)))
      by reflexivity.
    rewrite (skipn_all2 (P1.index_bytes p0 pairs))
      by (rewrite Lw, !index_bytes_length, Ln; lia).
    rewrite app_nil_r, firstn_all. reflexivity.
  - rewrite getIndex_bytes by (auto || (rewrite Ln; lia)). now rewrite !map_app.
  - unfold keys in Srt. rewrite Ep, map_app in Srt.
    apply Sorted_StronglySorted in Srt; [|intros a b c; lia].
    apply ss_app_inv in Srt as (S1 & S2 & _).
    apply StronglySorted_Sorted. apply ss_app; [exact S1 | constructor; [exact S2|] |].
    + apply Forall_map. exact (Forall_impl _ (fun kp H => Z.lt_le_incl _ _ H) Fh).
    + intros y z Hy [<-|Hz]; apply in_map_iff in Hy as ((a & b) & <- & Hy).
      * rewrite Forall_forall in Fl. exact (Fl _ Hy).
      * apply in_map_iff in Hz as ((c & d) & <- & Hz). rewrite Forall_forall in Fl, Fh.
        specialize (Fl _ Hy). specialize (Fh _ Hz). cbn in *. lia.
Qed.

(** [IndexFile.search_position] of [p1.py] on an index file whose keys
    are sorted: ["START"] when it holds no key; otherwise ["END"] when every
    key is smaller than the id, and else [1 +] the number of keys smaller
    than the id (the position of the first key [>=] the id, counted from 1). *)
Theorem search_position_spec (p0 x : Z) (pairs : list (Z * Z)) :
  rng p0 -> Forall (fun kp => rng (fst kp) /\ rng (snd kp)) pairs ->
  Z.of_nat (length pairs) + 1 < 2 ^ 31 -> Sorted Z.le (map fst pairs) ->
  (pairs = [] -> P1.search_position (P1.index_bytes p0 pairs) x = Ret P1.START)
  /\ (pairs <> [] ->
      exists pre post,
        pairs = pre ++ post
        /\ Forall (fun kp => fst kp < x) pre /\ Forall (fun kp => x <= fst kp) post
        /\ P1.search_position (P1.index_bytes p0 pairs) x
           = Ret (match post with
                  | [] => P1.END
                  | _ :: _ => P1.At (Z.of_nat (length pre) + 1)
                  end)).
Proof.
  intros H0 F Hl Srt. unfold P1.search_position. rewrite getIndex_bytes by assumption.
  cbn [rbind snd]. split; [intros ->; reflexivity|]. intro Hne.
  set (keys := map fst pairs) in *.
  assert (Lk : length keys = length pairs) by apply length_map.
  assert (Hn : length pairs <> 0%nat) by (destruct pairs; [contradiction | discriminate]).
  destruct (lower_loop_spec keys x (S (length keys)) 0 (Z.of_nat (length keys) - 1) Srt)
    as (Rg & Lo & Up); [lia | lia | lia | intros i Hi; lia | intros i Hi Hn'; lia | lia |].
  set (p := P1.lower_loop (S (length keys)) keys x 0 (Z.of_nat (length keys) - 1)) in *.
  set (q := Z.to_nat p).
  destruct (split_forall keys q (fun y => y < x) (fun y => x <= y)) as [Fl Fh].
  { intros i Hi. apply Lo. lia. }
  { intros i Hi. apply Up; lia. }
  unfold keys in Fl, Fh. rewrite firstn_map, Forall_map in Fl. rewrite skipn_map, Forall_map in Fh.
  exists (firstn q pairs), (skipn q pairs).
  split; [symmetry; apply firstn_skipn|]. split; [exact Fl|]. split; [exact Fh|].
  replace (Nat.eqb (length keys) 0) with false by (symmetry; apply Nat.eqb_neq; lia).
  fold p. destruct (Z.eqb_spec p (Z.of_nat (length keys))) as [E|E].
  - rewrite skipn_all2 by lia. reflexivity.
  - destruct (skipn q pairs) as [|kp rest] eqn:Es.
    + exfalso. assert (length (skipn q pairs) = 0%nat) by now rewrite Es.
      rewrite length_skipn in H. lia.
    + rewrite length_firstn. f_equal. f_equal. lia.
Qed.


Lemma insert_into_page_sorted_spec_witness :
  (insert_into_page_sorted (mkPage (map rec_k [1; 3]) (-1)) (rec_k 2)).(next_page) = -1
  /\ Sorted Z.le (map id (insert_into_page_sorted (mkPage (map rec_k [1; 3]) (-1)) (rec_k 2)).(records)).
Proof.
  destruct (insert_into_page_sorted_spec (mkPage (map rec_k [1; 3]) (-1)) (rec_k 2))
    as (pre & post & _ & _ & _ & _ & Srt & N);
    [cbn; repeat (constructor || lia) |].
  split; [exact N | exact Srt].
Defined.

Lemma page_pack_layout_witness :
  exists bs, page_pack (mkPage (map rec_k [1; 2]) (-1)) = Ret bs
    /\ length bs = (SIZE_HEADER + Nat.max 2 BLOCK_FACTOR * SIZE_OF_RECORD)%nat.
Proof.
  destruct (page_pack (mkPage (map rec_k [1; 2]) (-1))) as [bs|e] eqn:P;
    [|vm_compute in P; discriminate].
  exists bs. split; [reflexivity|]. exact (proj1 (page_pack_layout _ _ P)).
Defined.

Lemma page_codec_roundtrip_witness :
  exists bs, page_pack (mkPage [rec_k 1; rec_k 2] (-1)) = Ret bs
    /\ page_unpack bs = Ret (mkPage [rec_k 1; rec_k 2] (-1)).
Proof.
  destruct (page_codec_roundtrip [rec_k 1; rec_k 2] (-1)) as (bs & P & _ & U);
    [repeat constructor; apply rec_k_stable; lia | cbn; unfold BLOCK_FACTOR; lia | lia |].
  exists bs. split; assumption.
Defined.

Lemma write_page_read_back_witness :
  snd (d_write_page (Z.of_nat 1) (mkPage [rec_k 9] (-1)) (store_of [1; 2; 3; 4])) = Ret tt.
Proof.
  destruct (page_pack (mkPage [rec_k 9] (-1))) as [b|e] eqn:P; [|vm_compute in P; discriminate].
  assert (A : length (store_of [1; 2; 3; 4]).(data) = (2 * SIZE_OF_PAGE)%nat) by (vm_compute; reflexivity).
  pose proof (write_page_read_back (store_of [1; 2; 3; 4]) 2 1 (mkPage [rec_k 9] (-1))
                A ltac:(lia) ltac:(cbn; unfold BLOCK_FACTOR; lia)) as H.
  rewrite P in H. exact (proj1 H).
Defined.

Lemma append_page_read_back_witness :
  exists bs, d_append_page (mkPage [rec_k 9] (-1)) (store_of [1; 2])
             = (mkState ((store_of [1; 2]).(data) ++ bs) (store_of [1; 2]).(index), Ret 1).
Proof.
  destruct (page_pack (mkPage [rec_k 9] (-1))) as [b|e] eqn:P; [|vm_compute in P; discriminate].
  assert (A : length (store_of [1; 2]).(data) = (1 * SIZE_OF_PAGE)%nat) by (vm_compute; reflexivity).
  pose proof (append_page_read_back (store_of [1; 2]) 1 (mkPage [rec_k 9] (-1))
                A ltac:(cbn; unfold BLOCK_FACTOR; lia)) as H.
  rewrite P in H. exists b. exact (proj1 H).
Defined.

Lemma insert_unpackable_no_write_witness :
  exists e, insert (rec_k (2 ^ 31)) (store_of [1; 2]) = (store_of [1; 2], Exc e).
Proof.
  apply (insert_unpackable_no_write (rec_k (2 ^ 31)) (store_of [1; 2]) 1 StructError).
  - vm_compute. reflexivity.
  - lia.
  - intros es t pg E1 E2 E3. vm_compute in E1. injection E1 as <-.
    vm_compute in E2. subst t. vm_compute in E3. injection E3 as <-. vm_compute. lia.
  - vm_compute. reflexivity.
Defined.

Lemma load_all_chunks_witness :
  load_all (Some [1; 2; 3]) = Exc StructError
  /\ exists es, load_all (Some (repeat 0 16)) = Ret es /\ length es = 2%nat.
Proof.
  split.
  - apply (proj1 (load_all_chunks [1; 2; 3])). vm_compute. discriminate.
  - apply (proj2 (load_all_chunks (repeat 0 16))). vm_compute. reflexivity.
Defined.

Lemma load_all_packed_witness :
  load_all (Some (concat [[5; 0; 0; 0; 0; 0; 0; 0]; [7; 0; 0; 0; 1; 0; 0; 0]]))
  = Ret [(5, 0); (7, 1)].
Proof.
  apply load_all_packed.
  repeat constructor; vm_compute; reflexivity.
Defined.

Lemma page_for_key_spec_witness :
  page_for_key [(1, 0); (5, 1); (9, 2)] 0 = 0
  /\ exists pre k p post,
       [(1, 0); (5, 1); (9, 2)] = pre ++ (k, p) :: post
       /\ Forall (fun e => fst e <= 6) (pre ++ [(k, p)])
       /\ match post with [] => True | (k', _) :: _ => 6 < k' end
       /\ page_for_key [(1, 0); (5, 1); (9, 2)] 6 = p.
Proof.
  split.
  - apply (proj1 (page_for_key_spec [(1, 0); (5, 1); (9, 2)] 0)). lia.
  - apply (proj2 (page_for_key_spec [(1, 0); (5, 1); (9, 2)] 6)). lia.
Defined.

Lemma search_found_key_witness :
  exists r, snd (search 2 (store_of [1; 2])) = Ret (Found r) /\ r.(id) = 2.
Proof.
  destruct (snd (search 2 (store_of [1; 2]))) as [[r| |]|e] eqn:E;
    try (vm_compute in E; discriminate).
  exists r. split; [reflexivity | exact (search_found_key 2 (store_of [1; 2]) r E)].
Defined.

Lemma reach_chain0_witness :
  exists L, chain0 (store_of [1; 2; 3; 4]) = Ret L
    /\ Permutation (concat (map snd L)) [4; 3; 2; 1].
Proof.
  destruct (reach_chain0 (store_of [1; 2; 3; 4]) [4; 3; 2; 1]) as (L & C & _ & _ & P).
  - exact (reach_insert_all (map rec_k [1; 2; 3; 4]) empty_store [] reach_empty
             ltac:(vm_compute; reflexivity)).
  - discriminate.
  - exists L. split; assumption.
Defined.

Lemma search_reach_witness :
  (exists r, snd (search 3 (store_of [1; 2; 3; 4])) = Ret (Found r) /\ r.(id) = 3)
  /\ snd (search 9 (store_of [1; 2; 3; 4])) = Ret NotFound.
Proof.
  assert (R : reach (store_of [1; 2; 3; 4]) [4; 3; 2; 1])
    by exact (reach_insert_all (map rec_k [1; 2; 3; 4]) empty_store [] reach_empty
                ltac:(vm_compute; reflexivity)).
  split.
  - apply (proj1 (search_reach _ _ 3 R ltac:(discriminate))). cbn. tauto.
  - apply (proj2 (search_reach _ _ 9 R ltac:(discriminate))). cbn. lia.
Defined.

Lemma position_spec_witness :
  P1.position (mkPage (map rec_k [1; 3; 5]) (-1)) 3 = None
  /\ P1.position (mkPage (map rec_k [1; 3; 5]) (-1)) 4 = Some 2.
Proof.
  assert (Srt : Sorted Z.le (map id (mkPage (map rec_k [1; 3; 5]) (-1)).(records)))
    by (cbn; repeat (constructor || lia)).
  split.
  - apply (proj1 (position_spec _ 3 Srt)). cbn. tauto.
  - apply (proj1 (proj2 (position_spec _ 4 Srt) ltac:(cbn; lia))).
Defined.

Lemma addIndex_new_witness :
  P1.addIndex 0 7 None = (Some (P1.index_bytes 0 []), Ret tt).
Proof. exact (proj1 (addIndex_new 0 7 ltac:(unfold rng; lia))). Defined.

Lemma addIndex_append_witness :
  P1.getIndex (P1.index_bytes 0 ([(5, 1549)] ++ [(3, 3098)])) = Ret ([0; 1549; 3098], [5; 3]).
Proof.
  apply (proj2 (addIndex_append 3098 3 0 [(5, 1549)]
                  ltac:(unfold rng; lia) ltac:(unfold rng; lia) ltac:(unfold rng; lia)
                  ltac:(repeat constructor; unfold rng; cbn; lia) ltac:(cbn; lia))).
Defined.

Lemma updateIndex_insert_witness :
  exists pairs', P1.updateIndex 3098 6 (Some (P1.index_bytes 0 [(5, 1549); (9, 4647)]))
                 = (Some (P1.index_bytes 0 pairs'), Ret true).
Proof.
  destruct (updateIndex_insert 3098 6 0 [(5, 1549); (9, 4647)]
              ltac:(unfold rng; lia) ltac:(unfold rng; lia) ltac:(unfold rng; lia)
              ltac:(repeat constructor; unfold rng; cbn; lia) ltac:(cbn; lia)
              ltac:(cbn; repeat (constructor || lia)))
    as (pre & post & _ & _ & _ & E & _).
  eexists. exact E.
Defined.

Lemma search_position_spec_witness :
  P1.search_position (P1.index_bytes 0 []) 4 = Ret P1.START
  /\ exists pre post, [(5, 1549); (9, 4647)] = pre ++ post
       /\ Forall (fun kp => fst kp < 7) pre /\ Forall (fun kp => 7 <= fst kp) post
       /\ P1.search_position (P1.index_bytes 0 [(5, 1549); (9, 4647)]) 7
          = Ret (match post with [] => P1.END | _ :: _ => P1.At (Z.of_nat (length pre) + 1) end).
Proof.
  split.
  - apply (proj1 (search_position_spec 0 4 [] ltac:(unfold rng; lia) ltac:(constructor)
                    ltac:(cbn; lia) ltac:(constructor))). reflexivity.
  - apply (proj2 (search_position_spec 0 7 [(5, 1549); (9, 4647)]
                    ltac:(unfold rng; lia) ltac:(repeat constructor; unfold rng; cbn; lia)
                    ltac:(cbn; lia) ltac:(cbn; repeat (constructor || lia)))).
    discriminate.
Defined.

